(** * Word-frequency ranking in the CountVectorizer notebook

    A shallow embedding of the cells of
    [class10-sklearn-countvectorizer-inclass-ds] that build the dictionary
    [dictVocab] from a document-term matrix, sort it into [sortVocab] and
    print two slices of the result, together with the properties the
    specification states about them; then of the cells of the same notebook
    that read the corpus and preview the vocabulary, and of the cells of the
    spaCy notebook that collect words by part of speech and flatten
    subtrees.

    The notebook runs on Python 3.7: a [dict] keeps its keys in insertion
    order, [sorted] is a stable sort that compares keys with [<] only, and a
    list slice clamps its bounds.  The matrix [dtm] comes from
    [CountVectorizer()], whose default [dtype] is [numpy.int64]; numpy adds
    such cells modulo [2^64]. *)

From Stdlib Require Import ZArith String List Bool Lia Permutation Sorted.
From Stdlib Require Ascii DecimalString.
Import ListNotations.

Local Open Scope Z_scope.

(** ** Exceptions and results *)

(** The only exception the modelled cells can raise is the [IndexError] of a
    list subscript. *)
Inductive exn : Type :=
| IndexError.

Inductive result (A : Type) : Type :=
| Ok (a : A)
| Raise (e : exn).

Arguments Ok {A} a.
Arguments Raise {A} e.

(** ** Python lists: subscript and slice *)

Module PyList.

(** [l[x]] for an index produced by [range]: it is never negative. *)
Definition getitem {A : Type} (l : list A) (x : nat) : result A :=
  match nth_error l x with
  | Some a => Ok a
  | None => Raise IndexError
  end.

(** How a slice bound is adjusted to a list of length [len]: a negative
    bound counts from the end, and every bound is clamped to [0..len]. *)
Definition adjust (len i : Z) : Z :=
  if i <? 0 then Z.max (i + len) 0 else Z.min i len.

(** [l[start:stop]] (step 1). *)
Definition getslice {A : Type} (l : list A) (start stop : Z) : list A :=
  let len := Z.of_nat (length l) in
  let lo := adjust len start in
  let hi := adjust len stop in
  firstn (Z.to_nat (hi - lo)) (skipn (Z.to_nat lo) l).

(** [range(n)] *)
Definition range (n : nat) : list nat := seq 0 n.

End PyList.

(** ** Python dictionaries with string keys, in insertion order *)

Module PyDict.

Definition dict : Type := list (string * Z).

Definition empty : dict := [].

(** [d[k] = v]: an existing key keeps its place and takes the new value, a
    new key goes to the end. *)
Fixpoint setitem (d : dict) (k : string) (v : Z) : dict :=
  match d with
  | [] => [(k, v)]
  | (k', v') :: d' =>
      if String.eqb k' k then (k', v) :: d' else (k', v') :: setitem d' k v
  end.

(** [d.get(k)] *)
Fixpoint get (d : dict) (k : string) : option Z :=
  match d with
  | [] => None
  | (k', v') :: d' => if String.eqb k' k then Some v' else get d' k
  end.

(** [d.items()] *)
Definition items (d : dict) : list (string * Z) := d.

Definition keys (d : dict) : list string := map fst d.

(** [dict(pairs)] *)
Definition of_pairs (l : list (string * Z)) : dict :=
  fold_left (fun d kv => setitem d (fst kv) (snd kv)) l empty.

(** The invariant of every dictionary: a key occurs once. *)
Definition wf (d : dict) : Prop := NoDup (keys d).

End PyDict.

(** ** [sorted] *)

Section PySorted.

Context {A : Type} (key : A -> Z).

(** Insertion of [x], which came before every element of [l] in the input,
    into the sorted [l]: [x] passes only the elements whose key is strictly
    smaller, so it stays in front of the elements with an equal key. *)
Fixpoint insort (x : A) (l : list A) : list A :=
  match l with
  | [] => [x]
  | y :: l' => if key y <? key x then y :: insort x l' else x :: y :: l'
  end.

(** The stable ascending sort of [list.sort]. *)
Fixpoint list_sort (l : list A) : list A :=
  match l with
  | [] => []
  | x :: l' => insort x (list_sort l')
  end.

(** [sorted(l, key=key, reverse=reverse)].  With [reverse=True] the list is
    reversed, sorted ascending and reversed again, which keeps elements with
    equal keys in their input order. *)
Definition sorted (l : list A) (reverse : bool) : list A :=
  if reverse then rev (list_sort (rev l)) else list_sort l.

End PySorted.

(** ** numpy: [int64] cells and the sum along axis 0 *)

Module Numpy.

Definition int64_min : Z := - 2 ^ 63.
Definition int64_max : Z := 2 ^ 63 - 1.

(** Two's complement wrap-around of an integer into [int64]. *)
Definition int64_wrap (z : Z) : Z := (z + 2 ^ 63) mod 2 ^ 64 - 2 ^ 63.

Definition int64_add (a b : Z) : Z := int64_wrap (a + b).

(** A dense two-dimensional array: its [shape] and its rows.  The sparse
    [dtm] is only ever read through [dtm.toarray()], so the model keeps the
    dense form. *)
Record ndarray : Type := mk_ndarray {
  shape0 : nat;
  shape1 : nat;
  cells : list (list Z)
}.

(** Column [j]: cell [j] of every row. *)
Definition column (a : ndarray) (j : nat) : list Z :=
  map (fun row => nth j row 0) (cells a).

(** [a.sum(axis=0)]: one [int64] total per column. *)
Definition sum_axis0 (a : ndarray) : list Z :=
  map (fun j => fold_left int64_add (column a j) 0) (seq 0 (shape1 a)).

End Numpy.

Import PyList PyDict Numpy.

(** ** The document-term matrix *)

(** The arithmetic sum of column [j]. *)
Definition column_total (dtm : ndarray) (j : nat) : Z :=
  fold_right Z.add 0 (column dtm j).

(** What [cv.fit_transform] hands over: [shape0] rows of [shape1] cells, each
    cell the number of occurrences of a term in a document, and totals that
    the [int64] cells can hold (a count of tokens held in memory). *)
Record is_dtm (dtm : ndarray) : Prop := mk_is_dtm {
  dtm_rows : length (cells dtm) = shape0 dtm;
  dtm_cols : Forall (fun row => length row = shape1 dtm) (cells dtm);
  dtm_counts : Forall (Forall (fun c => 0 <= c <= int64_max)) (cells dtm);
  dtm_totals :
    Forall (fun j => column_total dtm j <= int64_max) (seq 0 (shape1 dtm))
}.

(** ** The notebook cell *)

(** A statement of the cell: it reads and updates the global [dictVocab] and
    may raise. *)
Definition stmt : Type := dict -> result unit * dict.

Definition skip : stmt := fun d => (Ok tt, d).

Definition seq_stmt (s1 s2 : stmt) : stmt :=
  fun d =>
    match s1 d with
    | (Ok _, d1) => s2 d1
    | (Raise e, d1) => (Raise e, d1)
    end.

(** [for x in xs: body] *)
Fixpoint for_in (xs : list nat) (body : nat -> stmt) : stmt :=
  match xs with
  | [] => skip
  | x :: xs' => seq_stmt (body x) (for_in xs' body)
  end.

(** [dictVocab[cv.get_feature_names()[x]] = dtm.toarray().sum(axis=0)[x]]:
    the right-hand side is evaluated first, then the key, then the store. *)
Definition assign_count (feature_names : list string) (dtm : ndarray)
    (x : nat) : stmt :=
  fun d =>
    match getitem (sum_axis0 dtm) x with
    | Raise e => (Raise e, d)
    | Ok v =>
        match getitem feature_names x with
        | Raise e => (Raise e, d)
        | Ok k => (Ok tt, setitem d k v)
        end
    end.

(** [for x in range(dtm.shape[1]): ...] *)
Definition dictVocab_loop (feature_names : list string) (dtm : ndarray)
    : stmt :=
  for_in (range (shape1 dtm)) (assign_count feature_names dtm).

(** The loop stopped after [n] columns. *)
Definition dictVocab_upto (feature_names : list string) (dtm : ndarray)
    (n : nat) : result unit * dict :=
  for_in (range n) (assign_count feature_names dtm) empty.

(** [dictVocab = {}] followed by the loop: the outcome and the dictionary the
    cell leaves behind. *)
Definition dictVocab_run (feature_names : list string) (dtm : ndarray)
    : result unit * dict :=
  dictVocab_loop feature_names dtm empty.

(** The value of [dictVocab] when the loop completes. *)
Definition dictVocab (feature_names : list string) (dtm : ndarray)
    : result dict :=
  match dictVocab_run feature_names dtm with
  | (Ok _, d) => Ok d
  | (Raise e, _) => Raise e
  end.

(** [sortVocab = sorted(dictVocab.items(), key=lambda x: x[1], reverse=True)] *)
Definition sortVocab (d : dict) : list (string * Z) :=
  sorted snd (items d) true.

(** [sortVocab[0:30]], the rows of the first printing loop. *)
Definition top30 (ranked : list (string * Z)) : list (string * Z) :=
  getslice ranked 0 30.

(** [sortVocab[200:230]], the rows of the second printing loop. *)
Definition lower30 (ranked : list (string * Z)) : list (string * Z) :=
  getslice ranked 200 230.

(** Modelled from the spec: [rank_as_table], which the notebook does not
    have; "converting the output of rank back into a table" is Python's
    [dict(ranked)]. *)
Definition rank_as_table (ranked : list (string * Z)) : dict :=
  of_pairs ranked.

(** ** Vocabulary of the statements *)

(** [x] stands somewhere in front of [y] in [l]. *)
Definition before {A : Type} (x y : A) (l : list A) : Prop :=
  exists l1 l2 l3, l = l1 ++ x :: l2 ++ y :: l3.

(** The entries of a ranked list or table whose count is [c]. *)
Definition with_count (c : Z) (l : list (string * Z)) : list (string * Z) :=
  filter (fun kv => snd kv =? c) l.

(** Non-increasing by count. *)
Definition by_count_desc (a b : string * Z) : Prop := snd b <= snd a.

(** The example of the specification. *)
Definition example_names : list string := ["cat"; "dog"; "sun"]%string.

Definition example_dtm : ndarray :=
  mk_ndarray 2 3 [[2; 0; 1]; [1; 1; 1]].

(** ** Printing *)

(** Standard output as the list of the texts that the calls of [print] have
    written, oldest first; [print] ends each of them with a newline of its
    own, which the list leaves out. *)
Definition stdout : Type := list string.

(** The one-character string of a line feed. *)
Definition nl : string := String (Ascii.ascii_of_nat 10) EmptyString.

(** [str(v)] of an integer cell: its decimal digits, with a minus sign for a
    negative one. *)
Definition str_int (v : Z) : string :=
  DecimalString.NilZero.string_of_int (Z.to_int v).

(** [for x in xs: print(line(x))], where evaluating the argument may raise:
    the texts printed before that stay printed. *)
Fixpoint print_each {A : Type} (xs : list A) (line : A -> result string)
    (out : stdout) : result unit * stdout :=
  match xs with
  | [] => (Ok tt, out)
  | x :: xs' =>
      match line x with
      | Raise e => (Raise e, out)
      | Ok s => print_each xs' line (out ++ [s])
      end
  end.

(** [str(cv.get_feature_names()[x]) + ": " + str(dtm.toarray().sum(axis=0)[x])
    + "\n"]: the operands are evaluated from left to right. *)
Definition preview_line (feature_names : list string) (dtm : ndarray)
    (x : nat) : result string :=
  match getitem feature_names x with
  | Raise e => Raise e
  | Ok k =>
      match getitem (sum_axis0 dtm) x with
      | Raise e => Raise e
      | Ok v => Ok (k ++ ": " ++ str_int v ++ nl)%string
      end
  end.

(** The cell that looks at the vocabulary: [for x in range(15): print(...)]. *)
Definition preview (feature_names : list string) (dtm : ndarray)
    : result unit * stdout :=
  print_each (range 15) (preview_line feature_names dtm) [].

(** What the preview shows for a name and its total. *)
Definition show_total (kv : string * Z) : string :=
  (fst kv ++ ": " ++ str_int (snd kv) ++ nl)%string.

(** [print(i[0], i[1])]: the two values separated by one space. *)
Definition show_entry (i : string * Z) : string :=
  (fst i ++ " " ++ str_int (snd i))%string.

(** [for i in sortVocab[0:30]: print(i[0], i[1])] *)
Definition print_top30 (ranked : list (string * Z)) : result unit * stdout :=
  print_each (top30 ranked) (fun i => Ok (show_entry i)) [].

(** [for i in sortVocab[200:230]: print(i[0], i[1])] *)
Definition print_lower30 (ranked : list (string * Z))
    : result unit * stdout :=
  print_each (lower30 ranked) (fun i => Ok (show_entry i)) [].

(** ** Reading the corpus *)

(** What the cell that reads the lyrics can raise: the [IndexError] of
    [docs[0]], or whatever [open] and [read] raise for a path. *)
Inductive load_exn (E : Type) : Type :=
| Builtin (e : exn)
| FromFile (e : E).

Arguments Builtin {E} e.
Arguments FromFile {E} e.

(** The state of the cell: the list [all_docs] and what has been printed. *)
Record load_state : Type := mk_load_state {
  all_docs : list string;
  printed : stdout
}.

(** [for doc in docs: with open(base_dir + doc, "r") as file: text =
    file.read(); all_docs.append(text)].  The file system is the function
    [read_text], from a path to the text of the file or to the exception that
    opening or reading it raises. *)
Fixpoint read_all {E : Type} (read_text : string -> E + string)
    (base_dir : string) (docs : list string) (acc : list string)
    : option E * list string :=
  match docs with
  | [] => (None, acc)
  | doc :: docs' =>
      match read_text (base_dir ++ doc)%string with
      | inl e => (Some e, acc)
      | inr text => read_all read_text base_dir docs' (acc ++ [text])
      end
  end.

(** The cell after [docs = os.listdir(base_dir)]: the loop, then
    [print(docs[0])], [print("\n")] and [print(all_docs[0])]. *)
Definition load_corpus {E : Type} (read_text : string -> E + string)
    (docs : list string) : option (load_exn E) * load_state :=
  match read_all read_text "./lyrics/" docs [] with
  | (Some e, texts) => (Some (FromFile e), mk_load_state texts [])
  | (None, texts) =>
      match getitem docs 0 with
      | Raise e => (Some (Builtin e), mk_load_state texts [])
      | Ok name =>
          match getitem texts 0 with
          | Raise e => (Some (Builtin e), mk_load_state texts [name; nl])
          | Ok text => (None, mk_load_state texts [name; nl; text])
          end
      end
  end.

(** ** The spaCy notebook: words by part of speech, and subtrees *)

(** The attributes of a spaCy token that the cells read. *)
#[warnings="-register-all"]
Inductive token : Type := mk_token {
  text : string;
  text_with_ws : string;
  pos_ : string;
  dep_ : string;
  subtree : list token
}.

(** [s in l] for a list of strings. *)
Definition str_in (s : string) (l : list string) : bool :=
  existsb (String.eqb s) l.

(** [for item in doc2: if item.pos_ == pos and item.text not in words:
    words.append(item.text)], started from the words collected so far. *)
Fixpoint collect_words (pos : string) (doc : list token)
    (words : list string) : list string :=
  match doc with
  | [] => words
  | item :: doc' =>
      if String.eqb (pos_ item) pos && negb (str_in (text item) words)
      then collect_words pos doc' (words ++ [text item])
      else collect_words pos doc' words
  end.

(** [nouns = []] and its loop. *)
Definition nouns (doc2 : list token) : list string :=
  collect_words "NOUN" doc2 [].

(** [adjectives = []] and its loop. *)
Definition adjectives (doc2 : list token) : list string :=
  collect_words "ADJ" doc2 [].

(** [s.lstrip()]; which characters are whitespace is Python's table, taken
    as the parameter [isspace]. *)
Fixpoint lstrip (isspace : Ascii.ascii -> bool) (s : string) : string :=
  match s with
  | EmptyString => EmptyString
  | String c s' => if isspace c then lstrip isspace s' else s
  end.

(** [s.rstrip()] *)
Fixpoint rstrip (isspace : Ascii.ascii -> bool) (s : string) : string :=
  match s with
  | EmptyString => EmptyString
  | String c s' =>
      match rstrip isspace s' with
      | EmptyString => if isspace c then EmptyString else String c EmptyString
      | r => String c r
      end
  end.

(** [s.strip()]: the scan from the left, then the scan from the right. *)
Definition strip (isspace : Ascii.ascii -> bool) (s : string) : string :=
  rstrip isspace (lstrip isspace s).

(** [def flatten_subtree(st): return ''.join([w.text_with_ws for w in
    list(st)]).strip()] *)
Definition flatten_subtree (isspace : Ascii.ascii -> bool)
    (st : list token) : string :=
  strip isspace (String.concat "" (map text_with_ws st)).

(** [word.dep_ in ('nsubj', 'nsubjpass')] *)
Definition is_subject (word : token) : bool :=
  String.eqb (dep_ word) "nsubj" || String.eqb (dep_ word) "nsubjpass".

(** [word.dep_ == 'prep'] *)
Definition is_prep (word : token) : bool :=
  String.eqb (dep_ word) "prep".

(** [for word in doc: if test(word):
    phrases.append(flatten_subtree(word.subtree))], started from the phrases
    collected so far. *)
Fixpoint collect_phrases (isspace : Ascii.ascii -> bool)
    (test : token -> bool) (doc : list token) (phrases : list string)
    : list string :=
  match doc with
  | [] => phrases
  | word :: doc' =>
      if test word
      then collect_phrases isspace test doc'
             (phrases ++ [flatten_subtree isspace (subtree word)])
      else collect_phrases isspace test doc' phrases
  end.

(** [subjects = []] and its loop. *)
Definition subjects (isspace : Ascii.ascii -> bool) (doc : list token)
    : list string :=
  collect_phrases isspace is_subject doc [].

(** [prep_phrases = []] and its loop. *)
Definition prep_phrases (isspace : Ascii.ascii -> bool) (doc : list token)
    : list string :=
  collect_phrases isspace is_prep doc [].




(** * Properties *)

(** ** [int64] addition *)

Lemma int64_wrap_small (z : Z) :
  int64_min <= z <= int64_max -> int64_wrap z = z.
Proof.
  unfold int64_min, int64_max, int64_wrap. intros H.
  rewrite Z.mod_small; lia.
Qed.

Lemma int64_wrap_range (z : Z) :
  int64_min <= int64_wrap z <= int64_max.
Proof.
  unfold int64_min, int64_max, int64_wrap.
  pose proof (Z.mod_pos_bound (z + 2 ^ 63) (2 ^ 64) ltac:(lia)). lia.
Qed.

Lemma int64_wrap_add_l (a b : Z) :
  int64_wrap (int64_wrap a + b) = int64_wrap (a + b).
Proof.
  unfold int64_wrap.
  replace ((a + 2 ^ 63) mod 2 ^ 64 - 2 ^ 63 + b + 2 ^ 63)
    with ((a + 2 ^ 63) mod 2 ^ 64 + b) by ring.
  rewrite Zplus_mod_idemp_l. do 2 f_equal. ring.
Qed.

(** Adding cell by cell with wrap-around is the wrap-around of the sum. *)
Lemma fold_int64_add (l : list Z) : forall a,
  fold_left int64_add l (int64_wrap a)
  = int64_wrap (a + fold_right Z.add 0 l).
Proof.
  induction l as [|c l IH]; intros a; simpl.
  - now rewrite Z.add_0_r.
  - unfold int64_add at 2. rewrite int64_wrap_add_l, IH.
    f_equal. ring.
Qed.

Lemma sum_axis0_wrap (dtm : ndarray) :
  sum_axis0 dtm
  = map (fun j => int64_wrap (column_total dtm j)) (seq 0 (shape1 dtm)).
Proof.
  unfold sum_axis0, column_total. apply map_ext. intros j.
  change 0 with (int64_wrap 0) at 1. now rewrite fold_int64_add.
Qed.

(** Two cells of [2^62] add up to [-2^63]. *)
Example sum_axis0_wraps :
  sum_axis0 (mk_ndarray 2 1 [[2 ^ 62]; [2 ^ 62]]) = [int64_min].
Proof. reflexivity. Qed.

Lemma sum_axis0_length (dtm : ndarray) :
  length (sum_axis0 dtm) = shape1 dtm.
Proof. unfold sum_axis0. now rewrite length_map, length_seq. Qed.

Lemma column_total_nonneg (dtm : ndarray) (j : nat) :
  Forall (Forall (fun c => 0 <= c <= int64_max)) (cells dtm) ->
  0 <= column_total dtm j.
Proof.
  unfold column_total, column. induction 1 as [|row rows Hrow _ IH]; simpl.
  - lia.
  - enough (0 <= nth j row 0) by lia.
    destruct (nth_in_or_default j row 0) as [Hin | ->]; [|lia].
    rewrite Forall_forall in Hrow. now apply Hrow in Hin.
Qed.

(** On a document-term matrix no addition wraps. *)
Lemma sum_axis0_exact (dtm : ndarray) :
  is_dtm dtm ->
  sum_axis0 dtm = map (column_total dtm) (seq 0 (shape1 dtm)).
Proof.
  intros [_ _ Hc Ht]. rewrite sum_axis0_wrap. apply map_ext_in.
  intros j Hj. apply int64_wrap_small.
  rewrite Forall_forall in Ht. specialize (Ht j Hj).
  pose proof (column_total_nonneg dtm j Hc).
  unfold int64_min. lia.
Qed.

(** ** Dictionaries *)

Lemma setitem_fresh (d : dict) (k : string) (v : Z) :
  ~ In k (keys d) -> setitem d k v = d ++ [(k, v)].
Proof.
  induction d as [|[k' v'] d IH]; simpl; intros Hk; [reflexivity|].
  destruct (String.eqb_spec k' k) as [->|_].
  - exfalso. apply Hk. now left.
  - rewrite IH; [reflexivity|]. intros Hin. apply Hk. now right.
Qed.

Lemma get_fresh (d : dict) (k : string) :
  get d k = None <-> ~ In k (keys d).
Proof.
  induction d as [|[k' v'] d IH]; simpl.
  - tauto.
  - destruct (String.eqb_spec k' k) as [->|Hne].
    + split; [discriminate|]. intros H. exfalso. apply H. now left.
    + rewrite IH. split; intros H; [intros [?|?]; tauto | tauto].
Qed.

(** Storing pairs whose keys are new and distinct appends them in order. *)
Lemma fold_setitem_fresh (l : list (string * Z)) : forall d : dict,
  NoDup (keys d ++ map fst l) ->
  fold_left (fun d kv => setitem d (fst kv) (snd kv)) l d = d ++ l.
Proof.
  induction l as [|[k v] l IH]; intros d Hnd; simpl.
  - now rewrite app_nil_r.
  - simpl in Hnd. pose proof (NoDup_remove_2 _ _ _ Hnd) as Hk.
    rewrite setitem_fresh by (intros Hin; apply Hk, in_or_app; now left).
    rewrite IH.
    + now rewrite <- app_assoc.
    + unfold keys in *. rewrite map_app, <- app_assoc. exact Hnd.
Qed.

Lemma of_pairs_nodup (l : list (string * Z)) :
  NoDup (map fst l) -> of_pairs l = l.
Proof.
  intros Hnd. unfold of_pairs. now rewrite fold_setitem_fresh.
Qed.

(** ** The loop that fills [dictVocab] *)

Lemma for_in_app (xs ys : list nat) (body : nat -> stmt) (d : dict) :
  for_in (xs ++ ys) body d = seq_stmt (for_in xs body) (for_in ys body) d.
Proof.
  revert d. induction xs as [|x xs IH]; intros d; simpl.
  - reflexivity.
  - unfold seq_stmt. destruct (body x d) as [[[]|e] d1].
    + rewrite IH. reflexivity.
    + reflexivity.
Qed.

Lemma skipn_nth_error {A : Type} (l : list A) : forall (s : nat) (a : A),
  nth_error l s = Some a -> skipn s l = a :: skipn (S s) l.
Proof.
  induction l as [|b l IH]; intros [|s] a H; simpl in *; try discriminate.
  - now injection H as ->.
  - now apply IH.
Qed.

(** While both lists are long enough, each pass stores the next pair. *)
Lemma for_in_assign_ok (names : list string) (dtm : ndarray) :
  forall (n s : nat) (d : dict),
    (s + n <= length names)%nat ->
    (s + n <= shape1 dtm)%nat ->
    for_in (seq s n) (assign_count names dtm) d
    = (Ok tt,
       fold_left (fun d kv => setitem d (fst kv) (snd kv))
         (combine (firstn n (skipn s names))
                  (firstn n (skipn s (sum_axis0 dtm)))) d).
Proof.
  induction n as [|n IH]; intros s d Hn Hs; simpl; [reflexivity|].
  unfold seq_stmt, assign_count, getitem.
  destruct (nth_error (sum_axis0 dtm) s) as [v|] eqn:Hv.
  2:{ apply nth_error_None in Hv. rewrite sum_axis0_length in Hv. lia. }
  destruct (nth_error names s) as [k|] eqn:Hk.
  2:{ apply nth_error_None in Hk. lia. }
  rewrite (skipn_nth_error _ _ _ Hv), (skipn_nth_error _ _ _ Hk). simpl.
  apply IH; lia.
Qed.

Lemma dictVocab_upto_ok (names : list string) (dtm : ndarray) (n : nat) :
  (n <= length names)%nat ->
  (n <= shape1 dtm)%nat ->
  dictVocab_upto names dtm n
  = (Ok tt, of_pairs (combine (firstn n names) (firstn n (sum_axis0 dtm)))).
Proof.
  intros Hn Hs. unfold dictVocab_upto, range.
  now rewrite for_in_assign_ok by lia.
Qed.

(** With at least as many names as columns the loop completes, and the extra
    names are never read. *)
Lemma dictVocab_ok (names : list string) (dtm : ndarray) :
  (shape1 dtm <= length names)%nat ->
  dictVocab names dtm = Ok (of_pairs (combine names (sum_axis0 dtm))).
Proof.
  intros Hle. unfold dictVocab, dictVocab_run, dictVocab_loop.
  fold (dictVocab_upto names dtm (shape1 dtm)).
  rewrite dictVocab_upto_ok by lia.
  rewrite (combine_firstn_r names (sum_axis0 dtm)), sum_axis0_length.
  rewrite <- (sum_axis0_length dtm) at 2. now rewrite firstn_all.
Qed.

(** With fewer names than columns the subscript of the name list raises at
    the first column that has no name; the earlier stores have happened. *)
Lemma dictVocab_run_short (names : list string) (dtm : ndarray) :
  (length names < shape1 dtm)%nat ->
  dictVocab_run names dtm
  = (Raise IndexError,
     of_pairs (combine names (firstn (length names) (sum_axis0 dtm)))).
Proof.
  intros Hlt. unfold dictVocab_run, dictVocab_loop, range.
  replace (shape1 dtm)
    with (length names + S (shape1 dtm - S (length names)))%nat by lia.
  rewrite seq_app, for_in_app. unfold seq_stmt at 1.
  fold (range (length names)). fold (dictVocab_upto names dtm (length names)).
  rewrite dictVocab_upto_ok by lia. rewrite firstn_all. simpl.
  unfold seq_stmt, assign_count, getitem.
  destruct (nth_error (sum_axis0 dtm) (length names)) as [v|] eqn:Hv.
  2:{ apply nth_error_None in Hv. rewrite sum_axis0_length in Hv. lia. }
  destruct (nth_error names (length names)) as [k|] eqn:Hk; [|reflexivity].
  assert (nth_error names (length names) <> None) as Hk' by congruence.
  apply nth_error_Some in Hk'. lia.
Qed.

(** ** The stable sort *)

Section SortFacts.

Context {A : Type} (key : A -> Z).

Let asc (a b : A) : Prop := key a <= key b.
Let desc (a b : A) : Prop := key b <= key a.
Let has (c : Z) (a : A) : bool := key a =? c.

Lemma insort_perm (x : A) (l : list A) :
  Permutation (insort key x l) (x :: l).
Proof.
  induction l as [|y l IH]; simpl; [reflexivity|].
  destruct (key y <? key x); [|reflexivity].
  rewrite IH. apply perm_swap.
Qed.

Lemma list_sort_perm (l : list A) : Permutation (list_sort key l) l.
Proof.
  induction l as [|x l IH]; simpl; [reflexivity|].
  rewrite insort_perm. now constructor.
Qed.

Lemma insort_sorted (x : A) (l : list A) :
  StronglySorted asc l -> StronglySorted asc (insort key x l).
Proof.
  induction 1 as [|y l Hl IH Hy]; simpl.
  - repeat constructor.
  - destruct (Z.ltb_spec (key y) (key x)) as [Hlt|Hge].
    + constructor; [exact IH|].
      apply (Permutation_Forall (Permutation_sym (insort_perm x l))).
      constructor; [unfold asc; lia | exact Hy].
    + constructor; [now constructor|].
      constructor; [exact Hge|].
      revert Hy. apply Forall_impl. unfold asc. intros z Hz. lia.
Qed.

Lemma list_sort_sorted (l : list A) : StronglySorted asc (list_sort key l).
Proof.
  induction l as [|x l IH]; simpl; [constructor | now apply insort_sorted].
Qed.

(** Insertion never lets an element pass one with the same key. *)
Lemma insort_filter (c : Z) (x : A) (l : list A) :
  filter (has c) (insort key x l) = filter (has c) (x :: l).
Proof.
  induction l as [|y l IH]; [reflexivity|].
  cbn [insort]. destruct (Z.ltb_spec (key y) (key x)) as [Hlt|Hge];
    [|reflexivity].
  cbn [filter] in *. rewrite IH. unfold has.
  destruct (Z.eqb_spec (key x) c), (Z.eqb_spec (key y) c);
    try reflexivity; lia.
Qed.

Lemma list_sort_filter (c : Z) (l : list A) :
  filter (has c) (list_sort key l) = filter (has c) l.
Proof.
  induction l as [|x l IH]; [reflexivity|].
  cbn [list_sort]. rewrite insort_filter. cbn [filter]. now rewrite IH.
Qed.

Lemma list_sort_fixed (l : list A) :
  StronglySorted asc l -> list_sort key l = l.
Proof.
  induction 1 as [|x l Hl IH Hx]; [reflexivity|].
  cbn [list_sort]. rewrite IH. destruct Hx as [|y l Hxy _]; [reflexivity|].
  cbn [insort]. unfold asc in Hxy.
  destruct (Z.ltb_spec (key y) (key x)); [lia | reflexivity].
Qed.

Lemma StronglySorted_snoc (R : A -> A -> Prop) (l : list A) (a : A) :
  StronglySorted R l -> Forall (fun x => R x a) l ->
  StronglySorted R (l ++ [a]).
Proof.
  induction 1 as [|x l Hl IH Hx]; intros Ha; simpl.
  - repeat constructor.
  - inversion Ha as [|? ? Hxa Hla]; subst. constructor.
    + now apply IH.
    + apply Forall_app. split; [exact Hx | now constructor].
Qed.

Lemma StronglySorted_rev (R : A -> A -> Prop) (l : list A) :
  StronglySorted R l -> StronglySorted (fun a b => R b a) (rev l).
Proof.
  induction 1 as [|x l Hl IH Hx]; simpl; [constructor|].
  apply StronglySorted_snoc; [exact IH | now apply Forall_rev].
Qed.

Lemma filter_rev (p : A -> bool) (l : list A) :
  filter p (rev l) = rev (filter p l).
Proof.
  induction l as [|x l IH]; [reflexivity|].
  simpl. rewrite filter_app, IH. simpl.
  destruct (p x); simpl; [reflexivity | now rewrite app_nil_r].
Qed.

(** *** [sorted(..., reverse=True)] *)

Lemma sorted_rev_perm (l : list A) : Permutation (sorted key l true) l.
Proof.
  unfold sorted. rewrite <- Permutation_rev, list_sort_perm.
  symmetry. apply Permutation_rev.
Qed.

Lemma sorted_rev_desc (l : list A) :
  StronglySorted desc (sorted key l true).
Proof.
  unfold sorted.
  apply (StronglySorted_rev asc), list_sort_sorted.
Qed.

Lemma sorted_rev_stable (c : Z) (l : list A) :
  filter (has c) (sorted key l true) = filter (has c) l.
Proof.
  unfold sorted.
  now rewrite filter_rev, list_sort_filter, filter_rev, rev_involutive.
Qed.

Lemma sorted_rev_fixed (l : list A) :
  StronglySorted desc l -> sorted key l true = l.
Proof.
  intros Hl. unfold sorted. rewrite list_sort_fixed.
  - apply rev_involutive.
  - apply (StronglySorted_rev desc), Hl.
Qed.

(** A sorted list is determined by the order of the elements of each key:
    whatever stable algorithm [sorted] runs, its result is this one. *)
Lemma stable_sorted_unique (l1 : list A) : forall l2 : list A,
  StronglySorted desc l1 -> StronglySorted desc l2 ->
  (forall c, filter (has c) l1 = filter (has c) l2) ->
  l1 = l2.
Proof.
  assert (Hself : forall x : A, has (key x) x = true)
    by (intros x; unfold has; apply Z.eqb_refl).
  assert (Hhead : forall (x y : A) (m1 m2 : list A),
    StronglySorted desc (x :: m1) ->
    (forall c, filter (has c) (x :: m1) = filter (has c) (y :: m2)) ->
    key y <= key x).
  { intros x y m1 m2 Hs Hf.
    destruct (Z.eq_dec (key y) (key x)) as [Heq|Hne]; [lia|].
    assert (Hin : In y (filter (has (key y)) (x :: m1))).
    { rewrite Hf. cbn [filter]. rewrite Hself. now left. }
    apply filter_In in Hin. destruct Hin as [[->|Hin] _]; [lia|].
    inversion Hs as [|? ? _ Hx]; subst.
    rewrite Forall_forall in Hx. apply (Hx y Hin). }
  induction l1 as [|x l1 IH]; intros [|y l2] H1 H2 Hf.
  - reflexivity.
  - specialize (Hf (key y)). cbn [filter] in Hf. rewrite Hself in Hf.
    discriminate.
  - specialize (Hf (key x)). cbn [filter] in Hf. rewrite Hself in Hf.
    discriminate.
  - assert (Hk : key x = key y).
    { pose proof (Hhead x y l1 l2 H1 Hf).
      pose proof (Hhead y x l2 l1 H2 (fun c => eq_sym (Hf c))). lia. }
    assert (Hxy : x = y).
    { specialize (Hf (key x)). cbn [filter] in Hf.
      rewrite Hself in Hf. rewrite Hk, Hself in Hf. congruence. }
    subst y. f_equal. inversion H1; inversion H2; subst.
    apply IH; try assumption.
    intros c. specialize (Hf c). cbn [filter] in Hf.
    destruct (has c x); congruence.
Qed.

End SortFacts.

(** ** The table built by the loop *)

Lemma keys_combine (names : list string) : forall vals : list Z,
  length names = length vals -> keys (combine names vals) = names.
Proof.
  unfold keys.
  induction names as [|k names IH]; intros [|v vals] H; simpl in *;
    try discriminate; [reflexivity|].
  f_equal. apply IH. lia.
Qed.

Lemma get_combine (names : list string) :
  forall (vals : list Z) (j : nat) (k : string) (v : Z),
    NoDup names ->
    nth_error names j = Some k -> nth_error vals j = Some v ->
    get (combine names vals) k = Some v.
Proof.
  induction names as [|n names IH]; intros vals j k v Hnd Hk Hv.
  - destruct j; discriminate.
  - inversion Hnd as [|? ? Hn Hnd']; subst.
    destruct vals as [|v0 vals]; [destruct j; discriminate|].
    destruct j as [|j]; simpl in *.
    + injection Hk as ->. injection Hv as ->. now rewrite String.eqb_refl.
    + destruct (String.eqb_spec n k) as [->|_].
      * exfalso. apply Hn. eapply nth_error_In, Hk.
      * eapply IH; eassumption.
Qed.

Lemma NoDup_firstn {A : Type} (n : nat) (l : list A) :
  NoDup l -> NoDup (firstn n l).
Proof.
  intros H. rewrite <- (firstn_skipn n l) in H.
  eapply NoDup_app_remove_r, H.
Qed.

Lemma firstn_S_nth_error {A : Type} (l : list A) : forall (n : nat) (a : A),
  nth_error l n = Some a -> firstn (S n) l = firstn n l ++ [a].
Proof.
  induction l as [|b l IH]; intros [|n] a H; simpl in *; try discriminate.
  - now injection H as ->.
  - f_equal. now apply IH.
Qed.

Lemma nth_error_combine {A B : Type} (l : list A) :
  forall (l' : list B) (n : nat) (a : A) (b : B),
    nth_error l n = Some a -> nth_error l' n = Some b ->
    nth_error (combine l l') n = Some (a, b).
Proof.
  induction l as [|x l IH]; intros [|y l'] [|n] a b Ha Hb; simpl in *;
    try discriminate.
  - congruence.
  - now apply IH.
Qed.

(** With one distinct name per column the stores never meet an existing key:
    the table is the names paired with the totals, in order. *)
Lemma dictVocab_unique_names (names : list string) (dtm : ndarray) :
  NoDup names -> length names = shape1 dtm ->
  dictVocab names dtm = Ok (combine names (sum_axis0 dtm)).
Proof.
  intros Hnd Hlen. rewrite dictVocab_ok by lia. f_equal.
  apply of_pairs_nodup. fold (keys (combine names (sum_axis0 dtm))).
  rewrite keys_combine; [exact Hnd | now rewrite sum_axis0_length].
Qed.

(** Whatever the cells hold, the count stored for a name is the column total
    reduced to [int64]. *)
Lemma dictVocab_counts_wrap (names : list string) (dtm : ndarray)
    (j : nat) (term : string) :
  NoDup names -> length names = shape1 dtm ->
  nth_error names j = Some term ->
  exists d : dict,
    dictVocab names dtm = Ok d /\
    get d term = Some (int64_wrap (column_total dtm j)).
Proof.
  intros Hnd Hlen Hj. exists (combine names (sum_axis0 dtm)).
  split; [now apply dictVocab_unique_names|].
  apply (get_combine names _ j); [exact Hnd | exact Hj|].
  rewrite sum_axis0_wrap.
  apply (map_nth_error (fun j => int64_wrap (column_total dtm j))).
  rewrite (nth_error_nth' _ 0%nat); rewrite ?length_seq, ?seq_nth;
    try reflexivity; rewrite <- Hlen; apply nth_error_Some; congruence.
Qed.

Lemma empty_sum_axis0 (dtm : ndarray) :
  cells dtm = [] -> sum_axis0 dtm = map (fun _ => 0) (seq 0 (shape1 dtm)).
Proof.
  intros H. unfold sum_axis0, column. now rewrite H.
Qed.

Lemma combine_zeros (names : list string) : forall s : nat,
  combine names (map (fun _ => 0) (seq s (length names)))
  = map (fun term => (term, 0)) names.
Proof.
  induction names as [|k names IH]; intros s; simpl; [reflexivity|].
  now rewrite IH.
Qed.

(** ** Slices *)

Lemma getslice_nonneg {A : Type} (l : list A) (start stop : Z) :
  0 <= start -> 0 <= stop ->
  getslice l start stop
  = firstn (Z.to_nat stop - Z.to_nat start) (skipn (Z.to_nat start) l).
Proof.
  intros Ha Hb. unfold getslice, adjust.
  destruct (Z.ltb_spec start 0) as [?|_]; [lia|].
  destruct (Z.ltb_spec stop 0) as [?|_]; [lia|].
  destruct (Z.le_gt_cases (Z.of_nat (length l)) start) as [Hout|Hin].
  - rewrite (Z.min_r start) by lia. rewrite !skipn_all2 by lia.
    now rewrite !firstn_nil.
  - rewrite (Z.min_l start) by lia.
    destruct (Z.le_gt_cases stop (Z.of_nat (length l))) as [Hs|Hs].
    + rewrite (Z.min_l stop) by lia. f_equal. lia.
    + rewrite (Z.min_r stop) by lia.
      rewrite !firstn_all2; [reflexivity | |]; rewrite length_skipn; lia.
Qed.

(** ** Relative order *)

Lemma before_filter {A : Type} (p : A -> bool) (x y : A) (l : list A) :
  p x = true -> p y = true -> before x y l -> before x y (filter p l).
Proof.
  intros Hx Hy (l1 & l2 & l3 & ->).
  exists (filter p l1), (filter p l2), (filter p l3).
  rewrite filter_app. cbn [filter]. rewrite Hx, filter_app. cbn [filter].
  now rewrite Hy.
Qed.

Lemma filter_before {A : Type} (p : A -> bool) (x y : A) (l : list A) :
  before x y (filter p l) -> before x y l.
Proof.
  induction l as [|a l IH]; intros (l1 & l2 & l3 & H).
  - destruct l1; discriminate.
  - cbn [filter] in H. destruct (p a) eqn:Hp.
    + destruct l1 as [|b l1]; simpl in H; injection H as Ha H.
      * subst a. assert (Hin : In y l).
        { eapply (proj1 (filter_In p y l)). rewrite H.
          apply in_or_app. right. now left. }
        apply in_split in Hin as (m1 & m2 & ->).
        now exists [], m1, m2.
      * subst b. destruct IH as (m1 & m2 & m3 & ->).
        { now exists l1, l2, l3. }
        now exists (a :: m1), m2, m3.
    + destruct IH as (m1 & m2 & m3 & ->).
      { now exists l1, l2, l3. }
      now exists (a :: m1), m2, m3.
Qed.

Lemma before_map {A B : Type} (f : A -> B) (x y : A) (l : list A) :
  before x y l -> before (f x) (f y) (map f l).
Proof.
  intros (l1 & l2 & l3 & ->).
  exists (map f l1), (map f l2), (map f l3).
  rewrite map_app. simpl. now rewrite map_app.
Qed.

(** ** The sorted vocabulary *)

Lemma sortVocab_perm (d : dict) : Permutation (sortVocab d) (items d).
Proof. apply sorted_rev_perm. Qed.

Lemma sortVocab_desc (d : dict) : StronglySorted by_count_desc (sortVocab d).
Proof. apply (sorted_rev_desc snd). Qed.

Lemma sortVocab_stable (c : Z) (d : dict) :
  with_count c (sortVocab d) = with_count c (items d).
Proof. apply (sorted_rev_stable snd). Qed.

Lemma sortVocab_fixed (d : dict) :
  StronglySorted by_count_desc (items d) -> sortVocab d = items d.
Proof. apply (sorted_rev_fixed snd). Qed.

Lemma sortVocab_before (d : dict) (e1 e2 : string * Z) :
  snd e1 = snd e2 ->
  before e1 e2 (sortVocab d) -> before e1 e2 (items d).
Proof.
  intros Heq Hb.
  apply (filter_before (fun kv => snd kv =? snd e1)).
  fold (with_count (snd e1) (items d)). rewrite <- sortVocab_stable.
  apply before_filter; [apply Z.eqb_refl | rewrite Heq; apply Z.eqb_refl |].
  exact Hb.
Qed.

Lemma sortVocab_wf (d : dict) : wf d -> NoDup (map fst (sortVocab d)).
Proof.
  intros Hd. eapply Permutation_NoDup; [|exact Hd].
  apply Permutation_map, Permutation_sym, sortVocab_perm.
Qed.

Lemma constant_counts_desc (names : list string) (c : Z) :
  StronglySorted by_count_desc (map (fun term => (term, c)) names).
Proof.
  induction names as [|k names IH]; simpl; constructor; [exact IH|].
  apply Forall_forall. intros kv Hin. apply in_map_iff in Hin.
  destruct Hin as (k' & <- & _). unfold by_count_desc. simpl. lia.
Qed.

(** ** The example matrix *)

(** A concrete array is a document-term matrix by inspection of its cells. *)
Ltac dtm_by_inspection :=
  constructor; simpl;
  [ reflexivity
  | repeat (constructor; try reflexivity)
  | repeat (constructor; try (unfold int64_max; lia))
  | repeat (constructor; try (unfold column_total, int64_max; simpl; lia)) ].

Lemma example_is_dtm : is_dtm example_dtm.
Proof. dtm_by_inspection. Qed.

Lemma example_names_distinct : NoDup example_names.
Proof.
  unfold example_names.
  repeat constructor; simpl; intuition discriminate.
Qed.

Lemma nth_error_seq_0 (n j : nat) :
  (j < n)%nat -> nth_error (seq 0 n) j = Some j.
Proof.
  intros H. rewrite (nth_error_nth' _ 0%nat) by (now rewrite length_seq).
  now rewrite seq_nth.
Qed.

(** * The statements of the specification *)

(** ** Aggregation *)

(** C1.  For a document-term matrix with [shape0 dtm] rows and [shape1 dtm]
    columns of counts and a vocabulary of [shape1 dtm] distinct names, the
    loop completes with a table of exactly [shape1 dtm] entries, in which the
    name at vocabulary index [j] is mapped to the arithmetic sum of column
    [j], a column being one cell of each of the [shape0 dtm] rows. *)
Theorem aggregate_column_sums (names : list string) (dtm : ndarray) :
  is_dtm dtm -> NoDup names -> length names = shape1 dtm ->
  exists d : dict,
    dictVocab names dtm = Ok d /\
    length (items d) = shape1 dtm /\
    (forall j : nat, length (column dtm j) = shape0 dtm) /\
    forall (j : nat) (term : string),
      nth_error names j = Some term ->
      get d term = Some (column_total dtm j).
Proof.
  intros Hdtm Hnd Hlen. exists (combine names (sum_axis0 dtm)).
  split; [now apply dictVocab_unique_names|].
  split; [unfold items; rewrite length_combine, sum_axis0_length; lia|].
  split.
  - intros j. unfold column. rewrite length_map. apply (dtm_rows _ Hdtm).
  - intros j term Hj. apply (get_combine names _ j); [exact Hnd | exact Hj|].
    rewrite sum_axis0_exact by exact Hdtm.
    apply map_nth_error, nth_error_seq_0.
    rewrite <- Hlen. apply nth_error_Some. congruence.
Qed.

(** The statement at the example matrix. *)
Lemma aggregate_column_sums_witness :
  exists d : dict,
    dictVocab example_names example_dtm = Ok d /\
    length (items d) = shape1 example_dtm /\
    (forall j : nat, length (column example_dtm j) = shape0 example_dtm) /\
    forall (j : nat) (term : string),
      nth_error example_names j = Some term ->
      get d term = Some (column_total example_dtm j).
Proof.
  apply (aggregate_column_sums example_names example_dtm).
  - exact example_is_dtm.
  - exact example_names_distinct.
  - reflexivity.
Defined.

(** C3, as the code has it.  The cell has no check of its own on the two
    lengths.  With fewer names than columns the subscript of the name list
    raises [IndexError] at the first column without a name, after the
    entries of the named columns have been stored; with more names than
    columns nothing is raised, and the table pairs the first [shape1 dtm]
    names with the column totals. *)
Theorem aggregate_length_mismatch (names : list string) (dtm : ndarray) :
  ((length names < shape1 dtm)%nat ->
     dictVocab names dtm = Raise IndexError /\
     dictVocab_run names dtm
     = (Raise IndexError,
        of_pairs (combine names (firstn (length names) (sum_axis0 dtm)))))
  /\
  ((shape1 dtm < length names)%nat ->
     dictVocab names dtm
     = Ok (of_pairs (combine (firstn (shape1 dtm) names) (sum_axis0 dtm)))).
Proof.
  split; intros H.
  - pose proof (dictVocab_run_short names dtm H) as Hrun.
    split; [|exact Hrun]. unfold dictVocab. now rewrite Hrun.
  - rewrite dictVocab_ok by lia.
    rewrite (combine_firstn_r names (sum_axis0 dtm)), sum_axis0_length.
    reflexivity.
Qed.

(** Both cases on small inputs: one name for two columns, two names for one
    column. *)
Lemma aggregate_length_mismatch_witness :
  (dictVocab ["a"]%string (mk_ndarray 1 2 [[1; 4]]) = Raise IndexError /\
   dictVocab_run ["a"]%string (mk_ndarray 1 2 [[1; 4]])
   = (Raise IndexError, [("a"%string, 1)]))
  /\
  dictVocab ["a"; "b"]%string (mk_ndarray 1 1 [[1]]) = Ok [("a"%string, 1)].
Proof.
  split.
  - apply (proj1 (aggregate_length_mismatch
                    ["a"]%string (mk_ndarray 1 2 [[1; 4]]))).
    simpl. lia.
  - apply (proj2 (aggregate_length_mismatch
                    ["a"; "b"]%string (mk_ndarray 1 1 [[1]]))).
    simpl. lia.
Defined.

(** C3, as the specification has it, fails: a vocabulary of two names and a
    matrix of one column disagree in length, and the cell returns a table. *)
Lemma aggregate_mismatch_returns_table :
  let names := ["a"; "b"]%string in
  let dtm := mk_ndarray 1 1 [[1]] in
  is_dtm dtm /\
  length names <> shape1 dtm /\
  dictVocab names dtm = Ok [("a"%string, 1)] /\
  ~ (exists e : exn, dictVocab names dtm = Raise e).
Proof.
  simpl. split; [|split; [|split]].
  - dtm_by_inspection.
  - discriminate.
  - reflexivity.
  - intros [e He]. discriminate He.
Qed.

(** C7.  The example of the specification: the rows [[2,0,1],[1,1,1]] with
    the vocabulary cat, dog, sun give the table cat 3, dog 1, sun 2, and its
    sorted form is cat 3, sun 2, dog 1. *)
Theorem example_table_and_ranking :
  dictVocab example_names example_dtm
  = Ok [("cat"%string, 3); ("dog"%string, 1); ("sun"%string, 2)] /\
  sortVocab [("cat"%string, 3); ("dog"%string, 1); ("sun"%string, 2)]
  = [("cat"%string, 3); ("sun"%string, 2); ("dog"%string, 1)].
Proof. split; reflexivity. Qed.

(** C8.  For a matrix without rows and a vocabulary of [shape1 dtm] distinct
    names, every count of the table is zero and the sorted list is the
    vocabulary in its own order, each name with the count zero. *)
Theorem empty_matrix_keeps_vocabulary_order
    (names : list string) (dtm : ndarray) :
  is_dtm dtm -> shape0 dtm = 0%nat ->
  NoDup names -> length names = shape1 dtm ->
  exists d : dict,
    dictVocab names dtm = Ok d /\
    Forall (fun kv => snd kv = 0) (items d) /\
    sortVocab d = map (fun term => (term, 0)) names /\
    map fst (sortVocab d) = names.
Proof.
  intros Hdtm Hrows Hnd Hlen.
  assert (Hcells : cells dtm = []).
  { apply length_zero_iff_nil. rewrite (dtm_rows _ Hdtm). exact Hrows. }
  exists (map (fun term => (term, 0)) names).
  assert (Hsort : sortVocab (map (fun term => (term, 0)) names)
                  = map (fun term => (term, 0)) names)
    by apply sortVocab_fixed, constant_counts_desc.
  split; [|split; [|split]].
  - rewrite dictVocab_unique_names by assumption.
    rewrite empty_sum_axis0 by exact Hcells.
    rewrite <- Hlen. now rewrite combine_zeros.
  - apply Forall_forall. intros kv Hin. apply in_map_iff in Hin.
    now destruct Hin as (k & <- & _).
  - exact Hsort.
  - rewrite Hsort, map_map. simpl. apply map_id.
Qed.

(** The statement at a matrix of shape (0, 3). *)
Lemma empty_matrix_keeps_vocabulary_order_witness :
  exists d : dict,
    dictVocab example_names (mk_ndarray 0 3 []) = Ok d /\
    Forall (fun kv => snd kv = 0) (items d) /\
    sortVocab d = map (fun term => (term, 0)) example_names /\
    map fst (sortVocab d) = example_names.
Proof.
  apply (empty_matrix_keeps_vocabulary_order
           example_names (mk_ndarray 0 3 [])).
  - dtm_by_inspection.
  - reflexivity.
  - exact example_names_distinct.
  - reflexivity.
Defined.

Lemma dictVocab_upto_unique (names : list string) (dtm : ndarray) (n : nat) :
  NoDup names -> length names = shape1 dtm -> (n <= shape1 dtm)%nat ->
  dictVocab_upto names dtm n
  = (Ok tt, firstn n (combine names (sum_axis0 dtm))).
Proof.
  intros Hnd Hlen Hn. rewrite dictVocab_upto_ok by lia.
  rewrite <- combine_firstn. f_equal. apply of_pairs_nodup.
  rewrite <- firstn_map. apply NoDup_firstn.
  fold (keys (combine names (sum_axis0 dtm))).
  rewrite keys_combine; [exact Hnd | now rewrite sum_axis0_length].
Qed.

(** C10.  The loop visits the columns in increasing order and, when the
    names are distinct and as many as the columns, every pass finds its name
    absent from the table and appends the entry at the end: no entry is
    overwritten, the keys of the finished table are the vocabulary in its
    order, and the table has one entry per name. *)
Theorem table_follows_vocabulary (names : list string) (dtm : ndarray) :
  NoDup names -> length names = shape1 dtm ->
  exists d : dict,
    dictVocab names dtm = Ok d /\
    dictVocab_upto names dtm (shape1 dtm) = (Ok tt, d) /\
    keys d = names /\
    wf d /\
    length (items d) = length names /\
    forall n : nat, (n < shape1 dtm)%nat ->
      exists (dn : dict) (k : string) (v : Z),
        dictVocab_upto names dtm n = (Ok tt, dn) /\
        keys dn = firstn n names /\
        nth_error names n = Some k /\
        get dn k = None /\
        dictVocab_upto names dtm (S n) = (Ok tt, dn ++ [(k, v)]).
Proof.
  intros Hnd Hlen.
  assert (Hsums : length names = length (sum_axis0 dtm))
    by now rewrite sum_axis0_length.
  pose proof (keys_combine names (sum_axis0 dtm) Hsums) as Hkeys.
  exists (combine names (sum_axis0 dtm)).
  split; [now apply dictVocab_unique_names|].
  split.
  { rewrite dictVocab_upto_unique by (assumption || lia).
    rewrite firstn_all2; [reflexivity|]. rewrite length_combine. lia. }
  split; [exact Hkeys|].
  split; [unfold wf; now rewrite Hkeys|].
  split; [unfold items; rewrite length_combine; lia|].
  intros n Hn.
  destruct (nth_error names n) as [k|] eqn:Hk.
  2:{ apply nth_error_None in Hk. lia. }
  destruct (nth_error (sum_axis0 dtm) n) as [v|] eqn:Hv.
  2:{ apply nth_error_None in Hv. lia. }
  exists (firstn n (combine names (sum_axis0 dtm))), k, v.
  assert (Hkn : keys (firstn n (combine names (sum_axis0 dtm)))
                = firstn n names).
  { unfold keys in *. now rewrite <- firstn_map, Hkeys. }
  split; [apply dictVocab_upto_unique; assumption || lia|].
  split; [exact Hkn|].
  split; [reflexivity|].
  split.
  - apply get_fresh. rewrite Hkn. intros Hin.
    pose proof (firstn_skipn n names) as Hsplit.
    rewrite (skipn_nth_error _ _ _ Hk) in Hsplit.
    rewrite <- Hsplit in Hnd. apply NoDup_remove_2 in Hnd.
    apply Hnd, in_or_app. now left.
  - rewrite dictVocab_upto_unique by (assumption || lia).
    rewrite (firstn_S_nth_error _ n (k, v)); [reflexivity|].
    now apply nth_error_combine.
Qed.

(** The statement at the example matrix. *)
Lemma table_follows_vocabulary_witness :
  exists d : dict,
    dictVocab example_names example_dtm = Ok d /\
    dictVocab_upto example_names example_dtm (shape1 example_dtm)
    = (Ok tt, d) /\
    keys d = example_names /\
    wf d /\
    length (items d) = length example_names /\
    forall n : nat, (n < shape1 example_dtm)%nat ->
      exists (dn : dict) (k : string) (v : Z),
        dictVocab_upto example_names example_dtm n = (Ok tt, dn) /\
        keys dn = firstn n example_names /\
        nth_error example_names n = Some k /\
        get dn k = None /\
        dictVocab_upto example_names example_dtm (S n)
        = (Ok tt, dn ++ [(k, v)]).
Proof.
  apply (table_follows_vocabulary example_names example_dtm).
  - exact example_names_distinct.
  - reflexivity.
Defined.

(** ** Ranking *)

(** C2.  The sorted list has as many entries as the table, is a permutation
    of the table's entries, is non-increasing by count, and keeps the entries
    of every count in the order they have in the table; so of two names with
    the same count the one that is first in the sorted list is first among
    the table's keys, which for a table built from a vocabulary of distinct
    names is the order of that vocabulary. *)
Theorem rank_sorted_stable_permutation (d : dict) :
  length (sortVocab d) = length (items d) /\
  Permutation (sortVocab d) (items d) /\
  StronglySorted by_count_desc (sortVocab d) /\
  (forall c : Z, with_count c (sortVocab d) = with_count c (items d)) /\
  (forall (t1 t2 : string) (c : Z),
     before (t1, c) (t2, c) (sortVocab d) -> before t1 t2 (keys d)) /\
  (forall (names : list string) (dtm : ndarray),
     NoDup names -> length names = shape1 dtm ->
     dictVocab names dtm = Ok d ->
     forall (t1 t2 : string) (c : Z),
       before (t1, c) (t2, c) (sortVocab d) -> before t1 t2 names).
Proof.
  assert (Hkeys : forall (t1 t2 : string) (c : Z),
    before (t1, c) (t2, c) (sortVocab d) -> before t1 t2 (keys d)).
  { intros t1 t2 c Hb.
    apply (before_map fst (t1, c) (t2, c)), sortVocab_before;
      [reflexivity | exact Hb]. }
  split; [apply Permutation_length, sortVocab_perm|].
  split; [apply sortVocab_perm|].
  split; [apply sortVocab_desc|].
  split; [intros c; apply sortVocab_stable|].
  split; [exact Hkeys|].
  intros names dtm Hnd Hlen Hd t1 t2 c Hb.
  rewrite dictVocab_unique_names in Hd by assumption.
  injection Hd as <-. apply Hkeys in Hb.
  rewrite keys_combine in Hb; [exact Hb | now rewrite sum_axis0_length].
Qed.

(** A tie in a table built from one row: cat and dog both have count 1 and
    stay in vocabulary order. *)
Lemma rank_sorted_stable_permutation_witness :
  before "cat"%string "dog"%string ["cat"; "dog"; "sun"]%string.
Proof.
  apply (proj2 (proj2 (proj2 (proj2 (proj2
           (rank_sorted_stable_permutation
              [("cat"%string, 1); ("dog"%string, 1); ("sun"%string, 2)])))))
         ["cat"; "dog"; "sun"]%string (mk_ndarray 1 3 [[1; 1; 2]])
         example_names_distinct eq_refl eq_refl
         "cat"%string "dog"%string 1).
  exists [("sun"%string, 2)], [], []. reflexivity.
Defined.

(** C5.  Two runs on the same matrix and vocabulary build the same table,
    and two runs of the sort on tables with the same entries in the same
    order give the same list, entry by entry; the list is moreover the only
    one that is non-increasing by count and keeps the entries of every count
    in their table order, so it does not depend on how [sorted] proceeds. *)
Theorem rank_deterministic (d1 d2 : dict) :
  (items d1 = items d2 ->
     sortVocab d1 = sortVocab d2 /\
     forall i : nat, nth_error (sortVocab d1) i = nth_error (sortVocab d2) i)
  /\
  (forall (names1 names2 : list string) (dtm1 dtm2 : ndarray),
     names1 = names2 -> dtm1 = dtm2 ->
     dictVocab names1 dtm1 = Ok d1 -> dictVocab names2 dtm2 = Ok d2 ->
     sortVocab d1 = sortVocab d2)
  /\
  (forall ranked : list (string * Z),
     StronglySorted by_count_desc ranked ->
     (forall c : Z, with_count c ranked = with_count c (items d1)) ->
     ranked = sortVocab d1).
Proof.
  split; [|split].
  - unfold items. intros ->. split; reflexivity.
  - intros names1 names2 dtm1 dtm2 -> -> H1 H2.
    rewrite H1 in H2. now injection H2 as ->.
  - intros ranked Hs Hf. apply (stable_sorted_unique snd).
    + exact Hs.
    + apply sortVocab_desc.
    + intros c. fold (with_count c ranked). fold (with_count c (sortVocab d1)).
      now rewrite Hf, sortVocab_stable.
Qed.

(** Two runs on the example matrix. *)
Lemma rank_deterministic_witness :
  sortVocab [("cat"%string, 3); ("dog"%string, 1); ("sun"%string, 2)]
  = sortVocab [("cat"%string, 3); ("dog"%string, 1); ("sun"%string, 2)].
Proof.
  apply (proj1 (proj2 (rank_deterministic _ _))
           example_names example_names example_dtm example_dtm
           eq_refl eq_refl eq_refl eq_refl).
Defined.

(** C6.  Turning the sorted list back into a dictionary and sorting again
    gives the same list: the sorted list has distinct keys, so the
    dictionary keeps its entries in their order, and a stable sort leaves a
    sorted list as it is. *)
Theorem rank_idempotent (d : dict) :
  wf d ->
  items (rank_as_table (sortVocab d)) = sortVocab d /\
  sortVocab (rank_as_table (sortVocab d)) = sortVocab d.
Proof.
  intros Hd.
  assert (Htable : items (rank_as_table (sortVocab d)) = sortVocab d).
  { unfold items, rank_as_table. apply of_pairs_nodup, sortVocab_wf, Hd. }
  split; [exact Htable|].
  rewrite sortVocab_fixed; [exact Htable|].
  rewrite Htable. apply sortVocab_desc.
Qed.

(** The statement at the example table. *)
Lemma rank_idempotent_witness :
  let d := [("cat"%string, 3); ("dog"%string, 1); ("sun"%string, 2)] in
  items (rank_as_table (sortVocab d)) = sortVocab d /\
  sortVocab (rank_as_table (sortVocab d)) = sortVocab d.
Proof.
  apply (rank_idempotent
           [("cat"%string, 3); ("dog"%string, 1); ("sun"%string, 2)]).
  exact example_names_distinct.
Defined.

(** ** Slices of the ranked list *)

(** C4.  The slice from 0 to 0 is empty, the slice from 0 to the length is
    the whole list, and for every bound above the length the slice from 0 is
    again the whole list: the cell never raises for a large bound, and a
    list of fewer than 30 entries is printed whole by the first loop. *)
Theorem top_slices (ranked : list (string * Z)) :
  getslice ranked 0 0 = [] /\
  getslice ranked 0 (Z.of_nat (length ranked)) = ranked /\
  (forall n : Z, Z.of_nat (length ranked) < n -> getslice ranked 0 n = ranked)
  /\
  ((length ranked < 30)%nat -> top30 ranked = ranked).
Proof.
  assert (Hover : forall n : Z,
    Z.of_nat (length ranked) <= n -> getslice ranked 0 n = ranked).
  { intros n Hn. rewrite getslice_nonneg by lia. simpl.
    apply firstn_all2. lia. }
  split; [rewrite getslice_nonneg by lia; reflexivity|].
  split; [apply Hover; lia|].
  split; [intros n Hn; apply Hover; lia|].
  intros H. apply Hover. lia.
Qed.

(** A bound above the length, on a list of three entries. *)
Lemma top_slices_witness :
  getslice [("cat"%string, 3); ("sun"%string, 2); ("dog"%string, 1)] 0 7
  = [("cat"%string, 3); ("sun"%string, 2); ("dog"%string, 1)]
  /\
  top30 [("cat"%string, 3); ("sun"%string, 2); ("dog"%string, 1)]
  = [("cat"%string, 3); ("sun"%string, 2); ("dog"%string, 1)].
Proof.
  split.
  - apply (proj1 (proj2 (proj2 (top_slices
             [("cat"%string, 3); ("sun"%string, 2); ("dog"%string, 1)])))).
    simpl. lia.
  - apply (proj2 (proj2 (proj2 (top_slices
             [("cat"%string, 3); ("sun"%string, 2); ("dog"%string, 1)])))).
    simpl. lia.
Defined.

(** C9.  A slice with bounds [0 <= start <= stop] is a value for every list:
    the entries from [start] up to, not including, [stop], as far as the
    list goes.  It is empty when [start] is at or past the end, and runs
    from [start] to the last entry when [stop] is past the end; so the
    second printing loop prints nothing for a list of at most 200 entries. *)
Theorem slices_clamp (ranked : list (string * Z)) (start stop : Z) :
  0 <= start <= stop ->
  getslice ranked start stop
  = firstn (Z.to_nat (stop - start)) (skipn (Z.to_nat start) ranked) /\
  (Z.of_nat (length ranked) <= start -> getslice ranked start stop = []) /\
  (Z.of_nat (length ranked) < stop ->
     getslice ranked start stop = skipn (Z.to_nat start) ranked) /\
  ((length ranked <= 200)%nat -> lower30 ranked = []).
Proof.
  intros Hb.
  assert (Hgen : forall a b : Z, 0 <= a <= b ->
    getslice ranked a b
    = firstn (Z.to_nat (b - a)) (skipn (Z.to_nat a) ranked)).
  { intros a b H. rewrite getslice_nonneg by lia. f_equal. lia. }
  split; [now apply Hgen|].
  split; [|split].
  - intros H. rewrite Hgen by exact Hb.
    rewrite skipn_all2 by lia. apply firstn_nil.
  - intros H. rewrite Hgen by exact Hb.
    apply firstn_all2. rewrite length_skipn. lia.
  - intros H. unfold lower30. rewrite Hgen by lia.
    rewrite skipn_all2 by lia. apply firstn_nil.
Qed.

(** A slice that runs past the end, and the second printing loop, on a list
    of three entries. *)
Lemma slices_clamp_witness :
  getslice [("cat"%string, 3); ("sun"%string, 2); ("dog"%string, 1)] 1 9
  = [("sun"%string, 2); ("dog"%string, 1)]
  /\
  lower30 [("cat"%string, 3); ("sun"%string, 2); ("dog"%string, 1)] = [].
Proof.
  pose proof (slices_clamp
    [("cat"%string, 3); ("sun"%string, 2); ("dog"%string, 1)] 1 9
    ltac:(lia)) as (_ & _ & Hpast & Hlow).
  split.
  - apply Hpast. simpl. lia.
  - apply Hlow. simpl. lia.
Defined.

(** * Further properties of the two notebooks *)

(** ** Stores and lookups in the dictionary *)

Lemma get_setitem_same (d : dict) (k : string) (v : Z) :
  get (setitem d k v) k = Some v.
Proof.
  induction d as [|[k' v'] d IH]; simpl.
  - now rewrite String.eqb_refl.
  - destruct (String.eqb_spec k' k) as [->|Hne]; simpl.
    + now rewrite String.eqb_refl.
    + destruct (String.eqb_spec k' k); [contradiction | exact IH].
Qed.

Lemma get_setitem_other (d : dict) (k k' : string) (v : Z) :
  k' <> k -> get (setitem d k v) k' = get d k'.
Proof.
  intros Hne. induction d as [|[k0 v0] d IH]; simpl.
  - destruct (String.eqb_spec k k'); [congruence | reflexivity].
  - destruct (String.eqb_spec k0 k) as [->|H0]; simpl.
    + destruct (String.eqb_spec k k'); [congruence | reflexivity].
    + destruct (String.eqb_spec k0 k'); [reflexivity | exact IH].
Qed.

Lemma keys_setitem_present (d : dict) (k : string) (v : Z) :
  In k (keys d) -> keys (setitem d k v) = keys d.
Proof.
  unfold keys. induction d as [|[k' v'] d IH]; simpl; [tauto|].
  intros Hin. destruct (String.eqb_spec k' k) as [->|Hne]; [reflexivity|].
  simpl. f_equal. apply IH. destruct Hin; [contradiction | assumption].
Qed.

Lemma keys_setitem_absent (d : dict) (k : string) (v : Z) :
  ~ In k (keys d) -> keys (setitem d k v) = keys d ++ [k].
Proof.
  intros H. rewrite setitem_fresh by exact H.
  unfold keys. now rewrite map_app.
Qed.

Lemma setitem_wf (d : dict) (k : string) (v : Z) :
  wf d -> wf (setitem d k v).
Proof.
  unfold wf. intros Hd. destruct (in_dec string_dec k (keys d)) as [Hin|Hout].
  - now rewrite keys_setitem_present.
  - rewrite keys_setitem_absent by exact Hout.
    apply NoDup_app; repeat split; try assumption.
    + repeat constructor. intros [].
    + intros x Hx [<-|[]]. contradiction.
Qed.

(** X1.  A store is read back by the lookup of its key and changes the
    lookup of no other key; a key that is present keeps its place among the
    keys, a new key goes to the end, and the keys stay distinct. *)
Theorem setitem_get_roundtrip (d : dict) (k : string) (v : Z) :
  get (setitem d k v) k = Some v /\
  (forall k' : string, k' <> k -> get (setitem d k v) k' = get d k') /\
  (In k (keys d) -> keys (setitem d k v) = keys d) /\
  (~ In k (keys d) -> keys (setitem d k v) = keys d ++ [k]) /\
  (wf d -> wf (setitem d k v)).
Proof.
  split; [apply get_setitem_same|].
  split; [intros k'; apply get_setitem_other|].
  split; [apply keys_setitem_present|].
  split; [apply keys_setitem_absent | apply setitem_wf].
Qed.

(** An overwrite in place and an append, on the example table. *)
Lemma setitem_get_roundtrip_witness :
  keys (setitem [("cat"%string, 3); ("dog"%string, 1)] "cat" 7)
  = ["cat"; "dog"]%string /\
  keys (setitem [("cat"%string, 3); ("dog"%string, 1)] "sun" 2)
  = ["cat"; "dog"; "sun"]%string /\
  get (setitem [("cat"%string, 3); ("dog"%string, 1)] "cat" 7) "dog"
  = Some 1 /\
  wf (setitem [("cat"%string, 3); ("dog"%string, 1)] "cat" 7).
Proof.
  pose proof (setitem_get_roundtrip
                [("cat"%string, 3); ("dog"%string, 1)] "cat" 7)
    as (_ & Hother & Hpresent & _ & Hwf).
  pose proof (setitem_get_roundtrip
                [("cat"%string, 3); ("dog"%string, 1)] "sun" 2)
    as (_ & _ & _ & Habsent & _).
  split; [apply Hpresent; simpl; tauto|].
  split; [apply Habsent; simpl; intuition discriminate|].
  split; [apply Hother; discriminate|].
  apply Hwf. repeat constructor; simpl; intuition discriminate.
Defined.

(** ** What the loop keeps, whatever the names *)

Lemma assign_count_cases (names : list string) (dtm : ndarray) (x : nat)
    (d : dict) :
  (exists e, assign_count names dtm x d = (Raise e, d)) \/
  (exists k v, nth_error names x = Some k /\
               nth_error (sum_axis0 dtm) x = Some v /\
               assign_count names dtm x d = (Ok tt, setitem d k v)).
Proof.
  unfold assign_count, getitem.
  destruct (nth_error (sum_axis0 dtm) x) as [v|]; [|left; now eexists].
  destruct (nth_error names x) as [k|]; [|left; now eexists].
  right. now exists k, v.
Qed.

Lemma for_in_assign_invariant (names : list string) (dtm : ndarray) :
  forall (xs : list nat) (d : dict),
    wf d ->
    (forall x, In x xs -> (x < shape1 dtm)%nat) ->
    let d' := snd (for_in xs (assign_count names dtm) d) in
    wf d' /\
    (length d' <= length d + length xs)%nat /\
    incl (keys d') (keys d ++ firstn (shape1 dtm) names).
Proof.
  induction xs as [|x xs IH]; intros d Hd Hxs; simpl.
  - split; [exact Hd|]. split; [lia|]. apply incl_appl, incl_refl.
  - unfold seq_stmt.
    destruct (assign_count_cases names dtm x d)
      as [[e ->]|(k & v & Hk & Hv & ->)]; simpl.
    + split; [exact Hd|]. split; [lia|]. apply incl_appl, incl_refl.
    + destruct (IH (setitem d k v)) as (Hwf & Hlen & Hincl).
      { now apply setitem_wf. }
      { intros y Hy. apply Hxs. now right. }
      split; [exact Hwf|]. split.
      * assert (length (setitem d k v) <= S (length d))%nat.
        { destruct (in_dec string_dec k (keys d)) as [Hin|Hout].
          - pose proof (keys_setitem_present d k v Hin) as Hkeys.
            apply (f_equal (@length string)) in Hkeys.
            unfold keys in Hkeys. rewrite !length_map in Hkeys. lia.
          - rewrite setitem_fresh by exact Hout.
            rewrite length_app. simpl. lia. }
        lia.
      * intros y Hy. apply Hincl in Hy. apply in_app_or in Hy.
        apply in_or_app. destruct Hy as [Hy|Hy]; [|now right].
        assert (Hkx : In k (firstn (shape1 dtm) names)).
        { apply (nth_error_In _ x). rewrite nth_error_firstn.
          destruct (Nat.ltb_spec x (shape1 dtm)) as [_|Hge]; [exact Hk|].
          specialize (Hxs x (or_introl eq_refl)). lia. }
        destruct (in_dec string_dec k (keys d)) as [Hin|Hout].
        -- rewrite keys_setitem_present in Hy by exact Hin. now left.
        -- rewrite keys_setitem_absent in Hy by exact Hout.
           apply in_app_or in Hy. destruct Hy as [Hy|[<-|[]]];
             [now left | now right].
Qed.

Lemma keys_setitem_incl (d : dict) (k : string) (v : Z) :
  incl (k :: keys d) (keys (setitem d k v)).
Proof.
  destruct (in_dec string_dec k (keys d)) as [Hin|Hout].
  - rewrite keys_setitem_present by exact Hin.
    intros x [<-|Hx]; assumption.
  - rewrite keys_setitem_absent by exact Hout.
    intros x [<-|Hx]; apply in_or_app; [right; now left | now left].
Qed.

Lemma keys_fold_setitem (l : list (string * Z)) : forall d : dict,
  incl (keys d ++ map fst l)
       (keys (fold_left (fun d kv => setitem d (fst kv) (snd kv)) l d)).
Proof.
  induction l as [|[k v] l IH]; intros d; simpl.
  - rewrite app_nil_r. apply incl_refl.
  - intros x Hx. apply IH. apply in_or_app. apply in_app_or in Hx.
    destruct Hx as [Hx|[<-|Hx]]; [| |now right]; left;
      apply keys_setitem_incl; [now right | now left].
Qed.

(** X2.  Whatever the names and the cells, and whether the loop completes or
    raises, the dictionary it leaves behind has distinct keys, at most one
    entry per column, and only keys taken from the first [shape1 dtm]
    names; when the loop completes, each of these names is a key. *)
Theorem dictVocab_run_invariant (names : list string) (dtm : ndarray) :
  let d := snd (dictVocab_run names dtm) in
  wf d /\
  (length (items d) <= shape1 dtm)%nat /\
  incl (keys d) (firstn (shape1 dtm) names) /\
  (fst (dictVocab_run names dtm) = Ok tt ->
   incl (firstn (shape1 dtm) names) (keys d)).
Proof.
  destruct (for_in_assign_invariant names dtm (range (shape1 dtm)) empty)
    as (Hwf & Hlen & Hincl).
  - constructor.
  - intros x Hx. apply in_seq in Hx. lia.
  - unfold range in Hlen. rewrite length_seq in Hlen.
    split; [exact Hwf|]. split; [exact Hlen|]. split; [exact Hincl|].
    intros Hok.
    destruct (Nat.le_gt_cases (shape1 dtm) (length names)) as [Hle|Hgt].
    + pose proof (dictVocab_ok names dtm Hle) as Hd. unfold dictVocab in Hd.
      destruct (dictVocab_run names dtm) as [[[]|e] d]; [|discriminate].
      injection Hd as ->. cbn [snd].
      intros x Hx. apply (keys_fold_setitem _ empty). simpl.
      rewrite (combine_firstn_r names (sum_axis0 dtm)), sum_axis0_length.
      fold (keys (combine (firstn (shape1 dtm) names) (sum_axis0 dtm))).
      rewrite keys_combine; [exact Hx|].
      rewrite sum_axis0_length. apply firstn_length_le. exact Hle.
    + rewrite (dictVocab_run_short names dtm Hgt) in Hok. discriminate.
Qed.

(** The example completes: its three names are the keys. *)
Lemma dictVocab_run_invariant_witness :
  incl (firstn (shape1 example_dtm) example_names)
       (keys (snd (dictVocab_run example_names example_dtm))).
Proof.
  apply (proj2 (proj2 (proj2
           (dictVocab_run_invariant example_names example_dtm)))).
  reflexivity.
Defined.

(** ** Names that occur twice *)

Lemma get_fold_setitem_other (l : list (string * Z)) (k : string) :
  forall d : dict,
    ~ In k (map fst l) ->
    get (fold_left (fun d kv => setitem d (fst kv) (snd kv)) l d) k
    = get d k.
Proof.
  induction l as [|[k' v'] l IH]; intros d Hk; simpl; [reflexivity|].
  simpl in Hk. rewrite IH by tauto.
  apply get_setitem_other. intros ->. tauto.
Qed.

(** The lookup of a key in [dict(pairs)] is the value of its last pair. *)
Lemma get_of_pairs_last (l1 l2 : list (string * Z)) (k : string) (v : Z) :
  ~ In k (map fst l2) ->
  get (of_pairs (l1 ++ (k, v) :: l2)) k = Some v.
Proof.
  intros Hk. unfold of_pairs. rewrite fold_left_app. simpl.
  rewrite get_fold_setitem_other by exact Hk.
  apply get_setitem_same.
Qed.

Lemma nth_error_skipn_S {A : Type} (l : list A) (j i : nat) :
  nth_error (skipn (S j) l) i = nth_error l (S j + i).
Proof.
  revert l. induction (S j) as [|n IH]; intros l; [reflexivity|].
  destruct l as [|a l]; simpl.
  - now destruct i.
  - apply IH.
Qed.

Lemma nth_error_combine_fst {A B : Type} (l : list A) :
  forall (l' : list B) (n : nat) (a : A) (b : B),
    nth_error (combine l l') n = Some (a, b) ->
    nth_error l n = Some a /\ (n < length l')%nat.
Proof.
  induction l as [|x l IH]; intros [|y l'] [|n] a b H; simpl in *;
    try discriminate.
  - injection H as -> ->. split; [reflexivity | lia].
  - apply IH in H. split; [tauto | lia].
Qed.

(** X3.  When a name stands at several columns the last store wins: the
    count kept for the name is the total of the last column, below
    [shape1 dtm], that carries it. *)
Theorem duplicate_name_keeps_last_column
    (names : list string) (dtm : ndarray) (j : nat) (k : string) :
  (shape1 dtm <= length names)%nat ->
  (j < shape1 dtm)%nat ->
  nth_error names j = Some k ->
  (forall j' : nat,
     (j < j' < shape1 dtm)%nat -> nth_error names j' <> Some k) ->
  exists d : dict,
    dictVocab names dtm = Ok d /\
    get d k = Some (int64_wrap (column_total dtm j)).
Proof.
  intros Hlen Hj Hk Hlast.
  exists (of_pairs (combine names (sum_axis0 dtm))).
  split; [now apply dictVocab_ok|].
  set (v := int64_wrap (column_total dtm j)).
  assert (Hv : nth_error (sum_axis0 dtm) j = Some v).
  { rewrite sum_axis0_wrap.
    apply (map_nth_error (fun j => int64_wrap (column_total dtm j))).
    now apply nth_error_seq_0. }
  pose proof (nth_error_combine _ _ _ _ _ Hk Hv) as Hkv.
  pose proof (firstn_skipn j (combine names (sum_axis0 dtm))) as Hsplit.
  rewrite (skipn_nth_error _ _ _ Hkv) in Hsplit.
  rewrite <- Hsplit. apply get_of_pairs_last.
  intros Hin. apply in_map_iff in Hin. destruct Hin as ([k' v'] & Hfst & Hin).
  simpl in Hfst. subst k'. apply In_nth_error in Hin. destruct Hin as [i Hi].
  rewrite nth_error_skipn_S in Hi.
  apply nth_error_combine_fst in Hi. destruct Hi as [Hi Hbound].
  rewrite sum_axis0_length in Hbound.
  apply (Hlast (S j + i)%nat); [lia | exact Hi].
Qed.

(** The name "a" at columns 0 and 2: its count is the total of column 2. *)
Lemma duplicate_name_keeps_last_column_witness :
  exists d : dict,
    dictVocab ["a"; "b"; "a"]%string (mk_ndarray 1 3 [[1; 2; 5]]) = Ok d /\
    get d "a"%string
    = Some (int64_wrap (column_total (mk_ndarray 1 3 [[1; 2; 5]]) 2)).
Proof.
  apply (duplicate_name_keeps_last_column
           ["a"; "b"; "a"]%string (mk_ndarray 1 3 [[1; 2; 5]]) 2 "a"%string).
  - simpl. lia.
  - simpl. lia.
  - reflexivity.
  - simpl. intros j' Hj'. lia.
Defined.

(** ** The order of the documents *)

Lemma sum_perm (l1 l2 : list Z) :
  Permutation l1 l2 -> fold_right Z.add 0 l1 = fold_right Z.add 0 l2.
Proof.
  induction 1; simpl; lia.
Qed.

Lemma for_in_ext (body1 body2 : nat -> stmt) :
  (forall x d, body1 x d = body2 x d) ->
  forall (xs : list nat) (d : dict), for_in xs body1 d = for_in xs body2 d.
Proof.
  intros Hext. induction xs as [|x xs IH]; intros d; simpl; [reflexivity|].
  unfold seq_stmt. rewrite Hext.
  destruct (body2 x d) as [[[]|e] d1]; [apply IH | reflexivity].
Qed.

Lemma dictVocab_of_sums (names : list string) (dtm1 dtm2 : ndarray) :
  shape1 dtm1 = shape1 dtm2 -> sum_axis0 dtm1 = sum_axis0 dtm2 ->
  dictVocab names dtm1 = dictVocab names dtm2.
Proof.
  intros Hshape Hsums.
  unfold dictVocab, dictVocab_run, dictVocab_loop. rewrite Hshape.
  rewrite (for_in_ext (assign_count names dtm1) (assign_count names dtm2));
    [reflexivity|].
  intros x d. unfold assign_count. now rewrite Hsums.
Qed.

(** X4.  The rows of the matrix are the documents in the order in which the
    directory was listed.  Listing them in another order changes neither the
    column totals, wrap-around included, nor the table, nor the sorted
    list. *)
Theorem document_order_is_irrelevant
    (names : list string) (dtm1 dtm2 : ndarray) :
  Permutation (cells dtm1) (cells dtm2) ->
  shape1 dtm1 = shape1 dtm2 ->
  sum_axis0 dtm1 = sum_axis0 dtm2 /\
  dictVocab names dtm1 = dictVocab names dtm2 /\
  (forall d1 d2 : dict,
     dictVocab names dtm1 = Ok d1 -> dictVocab names dtm2 = Ok d2 ->
     sortVocab d1 = sortVocab d2).
Proof.
  intros Hperm Hshape.
  assert (Hsums : sum_axis0 dtm1 = sum_axis0 dtm2).
  { rewrite !sum_axis0_wrap, Hshape. apply map_ext. intros j. f_equal.
    unfold column_total, column. apply sum_perm.
    now apply Permutation_map. }
  pose proof (dictVocab_of_sums names dtm1 dtm2 Hshape Hsums) as Hd.
  split; [exact Hsums|]. split; [exact Hd|].
  intros d1 d2 H1 H2. rewrite Hd, H2 in H1. now injection H1 as ->.
Qed.

(** The two rows of the example, swapped. *)
Lemma document_order_is_irrelevant_witness :
  sum_axis0 example_dtm = sum_axis0 (mk_ndarray 2 3 [[1; 1; 1]; [2; 0; 1]]) /\
  dictVocab example_names example_dtm
  = dictVocab example_names (mk_ndarray 2 3 [[1; 1; 1]; [2; 0; 1]]).
Proof.
  pose proof (document_order_is_irrelevant example_names example_dtm
                (mk_ndarray 2 3 [[1; 1; 1]; [2; 0; 1]])
                (perm_swap _ _ _) eq_refl) as (Hsums & Hd & _).
  split; [exact Hsums | exact Hd].
Defined.

(** ** The counts add up to the size of the corpus *)

Lemma row_by_index (row : list Z) :
  map (fun j => nth j row 0) (seq 0 (length row)) = row.
Proof.
  induction row as [|c row IH]; [reflexivity|].
  simpl. f_equal. rewrite <- seq_shift, map_map. exact IH.
Qed.

Lemma sum_map_add {A : Type} (f g : A -> Z) (l : list A) :
  fold_right Z.add 0 (map (fun x => f x + g x) l)
  = fold_right Z.add 0 (map f l) + fold_right Z.add 0 (map g l).
Proof.
  induction l as [|x l IH]; simpl; lia.
Qed.

(** Summing the columns one by one, or the rows one by one, is the same. *)
Lemma sum_columns_rows (rows : list (list Z)) (n : nat) :
  Forall (fun row => length row = n) rows ->
  fold_right Z.add 0
    (map (fun j => fold_right Z.add 0 (map (fun row => nth j row 0) rows))
         (seq 0 n))
  = fold_right Z.add 0 (map (fold_right Z.add 0) rows).
Proof.
  induction 1 as [|row rows Hrow _ IH]; simpl.
  - induction (seq 0 n) as [|j js IHj]; simpl; lia.
  - rewrite (sum_map_add (fun j => nth j row 0)), IH.
    f_equal. rewrite <- Hrow. now rewrite row_by_index.
Qed.

Lemma snd_combine {A B : Type} (l : list A) : forall l' : list B,
  length l = length l' -> map snd (combine l l') = l'.
Proof.
  induction l as [|x l IH]; intros [|y l'] H; simpl in *; try discriminate;
    [reflexivity|].
  f_equal. apply IH. lia.
Qed.

(** X5.  On a document-term matrix with one distinct name per column the
    counts of the table, and so those of the sorted list, add up to the sum
    of all cells: the number of counted words of the corpus. *)
Theorem counts_add_up_to_corpus_size (names : list string) (dtm : ndarray) :
  is_dtm dtm -> NoDup names -> length names = shape1 dtm ->
  exists d : dict,
    dictVocab names dtm = Ok d /\
    fold_right Z.add 0 (map snd (items d))
    = fold_right Z.add 0 (map (fold_right Z.add 0) (cells dtm)) /\
    fold_right Z.add 0 (map snd (sortVocab d))
    = fold_right Z.add 0 (map (fold_right Z.add 0) (cells dtm)).
Proof.
  intros Hdtm Hnd Hlen. exists (combine names (sum_axis0 dtm)).
  split; [now apply dictVocab_unique_names|].
  assert (Htable :
    fold_right Z.add 0 (map snd (items (combine names (sum_axis0 dtm))))
    = fold_right Z.add 0 (map (fold_right Z.add 0) (cells dtm))).
  { unfold items. rewrite snd_combine by now rewrite sum_axis0_length.
    rewrite sum_axis0_exact by exact Hdtm.
    unfold column_total, column.
    apply sum_columns_rows, (dtm_cols _ Hdtm). }
  split; [exact Htable|].
  rewrite <- Htable. apply sum_perm, Permutation_map, sortVocab_perm.
Qed.

(** The example matrix holds six counted words. *)
Lemma counts_add_up_to_corpus_size_witness :
  exists d : dict,
    dictVocab example_names example_dtm = Ok d /\
    fold_right Z.add 0 (map snd (items d))
    = fold_right Z.add 0 (map (fold_right Z.add 0) (cells example_dtm)) /\
    fold_right Z.add 0 (map snd (sortVocab d))
    = fold_right Z.add 0 (map (fold_right Z.add 0) (cells example_dtm)).
Proof.
  apply (counts_add_up_to_corpus_size example_names example_dtm).
  - exact example_is_dtm.
  - exact example_names_distinct.
  - reflexivity.
Defined.

(** ** The slices of the sorted list *)

Lemma StronglySorted_app_inv {A : Type} (R : A -> A -> Prop) (l1 l2 : list A) :
  StronglySorted R (l1 ++ l2) ->
  forall x y : A, In x l1 -> In y l2 -> R x y.
Proof.
  induction l1 as [|a l1 IH]; intros Hs x y Hx Hy; [destruct Hx|].
  simpl in Hs. inversion Hs as [|? ? Hs' Ha]; subst.
  destruct Hx as [<-|Hx].
  - rewrite Forall_forall in Ha. apply Ha, in_or_app. now right.
  - now apply IH.
Qed.

Lemma top30_firstn {A : Type} (l : list A) : getslice l 0 30 = firstn 30 l.
Proof. now rewrite getslice_nonneg by lia. Qed.

Lemma lower30_skipn {A : Type} (l : list A) :
  getslice l 200 230 = firstn 30 (skipn 200 l).
Proof. now rewrite getslice_nonneg by lia. Qed.

Lemma in_firstn {A : Type} (n : nat) (l : list A) (x : A) :
  In x (firstn n l) -> In x l.
Proof.
  intros H. rewrite <- (firstn_skipn n l). apply in_or_app. now left.
Qed.

Lemma in_skipn {A : Type} (n : nat) (l : list A) (x : A) :
  In x (skipn n l) -> In x l.
Proof.
  intros H. rewrite <- (firstn_skipn n l). apply in_or_app. now right.
Qed.

(** X6.  The 30 rows of the first printing loop are the 30 largest counts:
    no entry that the slice [0:30] leaves out has a larger count than an
    entry inside it; in particular no row of the second loop has a larger
    count than a row of the first. *)
Theorem top30_holds_largest_counts (d : dict) (inside outside : string * Z) :
  In inside (top30 (sortVocab d)) ->
  (In outside (skipn 30 (sortVocab d)) \/
   In outside (lower30 (sortVocab d))) ->
  snd outside <= snd inside.
Proof.
  unfold top30, lower30. rewrite top30_firstn, lower30_skipn.
  intros Hin Hout.
  assert (Hrest : In outside (skipn 30 (sortVocab d))).
  { destruct Hout as [Hout|Hout]; [exact Hout|].
    apply in_firstn in Hout.
    change 200%nat with (170 + 30)%nat in Hout.
    rewrite <- skipn_skipn in Hout.
    apply in_skipn in Hout. exact Hout. }
  pose proof (sortVocab_desc d) as Hs.
  rewrite <- (firstn_skipn 30 (sortVocab d)) in Hs.
  apply (StronglySorted_app_inv by_count_desc _ _ Hs inside outside Hin Hrest).
Qed.

(** A table of 31 names with the counts 1 to 31: the entry that the first 30
    rows leave out is the one with the count 1. *)
Lemma top30_holds_largest_counts_witness :
  snd ("1"%string, 1) <= snd ("31"%string, 31).
Proof.
  apply (top30_holds_largest_counts
           (map (fun n => (str_int (Z.of_nat n), Z.of_nat n)) (seq 1 31))
           ("31"%string, 31) ("1"%string, 1)).
  - vm_compute. tauto.
  - left. vm_compute. tauto.
Defined.


Lemma firstn_firstn_skipn {A : Type} (n k : nat) : forall l : list A,
  firstn n l ++ firstn k (skipn n l) = firstn (n + k) l.
Proof.
  induction n as [|n IH]; intros l; [reflexivity|].
  destruct l as [|a l]; simpl.
  - now rewrite firstn_nil.
  - f_equal. apply IH.
Qed.


(** X8.  Slices with bounds [0 <= a <= b <= c] tile the list: the slice
    [a:b] followed by the slice [b:c] is the slice [a:c].  So the rows of the
    two printing loops are separate parts of the sorted list, with the
    entries 30 to 199 between them. *)
Theorem slices_tile {A : Type} (l : list A) (a b c : Z) :
  0 <= a <= b -> b <= c ->
  getslice l a b ++ getslice l b c = getslice l a c /\
  l = getslice l 0 30 ++ getslice l 30 200 ++ getslice l 200 230
        ++ getslice l 230 (Z.of_nat (length l)).
Proof.
  intros Hab Hbc.
  assert (Htile : forall x y z : Z, 0 <= x <= y -> y <= z ->
    getslice l x y ++ getslice l y z = getslice l x z).
  { intros x y z Hxy Hyz. rewrite !getslice_nonneg by lia.
    assert (Hskip : skipn (Z.to_nat y) l
                    = skipn (Z.to_nat y - Z.to_nat x) (skipn (Z.to_nat x) l))
      by (rewrite skipn_skipn; f_equal; lia).
    rewrite Hskip, firstn_firstn_skipn. f_equal. lia. }
  split; [now apply Htile|].
  assert (Hall : forall z : Z,
    Z.of_nat (length l) <= z -> getslice l 0 z = l).
  { intros z Hz. rewrite getslice_nonneg by lia.
    change (Z.to_nat 0) with 0%nat. cbn [skipn].
    apply firstn_all2. lia. }
  destruct (Z.le_gt_cases 230 (Z.of_nat (length l))) as [Hlong|Hshort].
  - rewrite !Htile by lia. symmetry. apply Hall. lia.
  - rewrite (getslice_nonneg l 230) by lia.
    replace (Z.to_nat (Z.of_nat (length l)) - Z.to_nat 230)%nat
      with 0%nat by lia.
    cbn [firstn]. rewrite app_nil_r, !Htile by lia.
    symmetry. apply Hall. lia.
Qed.

(** The tiling of a list of three entries. *)
Lemma slices_tile_witness :
  getslice [("cat"%string, 3); ("sun"%string, 2); ("dog"%string, 1)] 0 1
  ++ getslice [("cat"%string, 3); ("sun"%string, 2); ("dog"%string, 1)] 1 2
  = getslice [("cat"%string, 3); ("sun"%string, 2); ("dog"%string, 1)] 0 2.
Proof.
  apply (proj1 (slices_tile
    [("cat"%string, 3); ("sun"%string, 2); ("dog"%string, 1)] 0 1 2
    ltac:(lia) ltac:(lia))).
Defined.

(** ** What the cells print *)

Lemma print_each_total {A : Type} (f : A -> string) (xs : list A) :
  forall out : stdout,
    print_each xs (fun i => Ok (f i)) out = (Ok tt, out ++ map f xs).
Proof.
  induction xs as [|x xs IH]; intros out; simpl.
  - now rewrite app_nil_r.
  - rewrite IH, <- app_assoc. reflexivity.
Qed.

Lemma print_each_app {A : Type} (line : A -> result string)
    (xs ys : list A) : forall out : stdout,
  print_each (xs ++ ys) line out
  = match print_each xs line out with
    | (Ok _, out') => print_each ys line out'
    | (Raise e, out') => (Raise e, out')
    end.
Proof.
  induction xs as [|x xs IH]; intros out; simpl; [reflexivity|].
  destruct (line x) as [s|e]; [apply IH | reflexivity].
Qed.

(** While there is a name and a total for the index, a pass prints them. *)
Lemma print_each_preview_ok (names : list string) (dtm : ndarray) :
  forall (n s : nat) (out : stdout),
    (s + n <= length names)%nat ->
    (s + n <= shape1 dtm)%nat ->
    print_each (seq s n) (preview_line names dtm) out
    = (Ok tt,
       out ++ map show_total
                (firstn n (skipn s (combine names (sum_axis0 dtm))))).
Proof.
  induction n as [|n IH]; intros s out Hn Hs; simpl.
  - now rewrite app_nil_r.
  - unfold preview_line at 1. unfold getitem.
    destruct (nth_error names s) as [k|] eqn:Hk.
    2:{ apply nth_error_None in Hk. lia. }
    destruct (nth_error (sum_axis0 dtm) s) as [v|] eqn:Hv.
    2:{ apply nth_error_None in Hv. rewrite sum_axis0_length in Hv. lia. }
    rewrite (skipn_nth_error _ _ _ (nth_error_combine _ _ _ _ _ Hk Hv)).
    rewrite IH by lia. simpl. now rewrite <- app_assoc.
Qed.

(** X9.  With at least 15 names and 15 columns the preview cell prints 15
    texts and does not raise: for each of the first 15 indices the name, a
    colon, the column total and a line feed.  With one distinct name per
    column these are the first 15 entries of the table that the next cell
    builds. *)
Theorem preview_shows_first_entries (names : list string) (dtm : ndarray) :
  (15 <= length names)%nat -> (15 <= shape1 dtm)%nat ->
  preview names dtm
  = (Ok tt, map show_total (firstn 15 (combine names (sum_axis0 dtm)))) /\
  length (snd (preview names dtm)) = 15%nat /\
  (NoDup names -> length names = shape1 dtm ->
   exists d : dict,
     dictVocab names dtm = Ok d /\
     snd (preview names dtm) = map show_total (firstn 15 (items d))).
Proof.
  intros Hn Hs.
  assert (Hrun : preview names dtm
    = (Ok tt, map show_total (firstn 15 (combine names (sum_axis0 dtm))))).
  { unfold preview, range. now rewrite print_each_preview_ok by lia. }
  split; [exact Hrun|]. rewrite Hrun. cbn [snd]. split.
  - rewrite length_map, length_firstn, length_combine, sum_axis0_length. lia.
  - intros Hnd Hlen. exists (combine names (sum_axis0 dtm)).
    split; [now apply dictVocab_unique_names | reflexivity].
Qed.

(** A matrix of one document and 15 columns. *)
Lemma preview_shows_first_entries_witness :
  length (snd (preview (map (fun n => str_int (Z.of_nat n)) (seq 0 15))
                 (mk_ndarray 1 15 [map Z.of_nat (seq 0 15)]))) = 15%nat.
Proof.
  apply (preview_shows_first_entries
           (map (fun n => str_int (Z.of_nat n)) (seq 0 15))
           (mk_ndarray 1 15 [map Z.of_nat (seq 0 15)])).
  - simpl. lia.
  - simpl. lia.
Defined.

(** X10.  With fewer than 15 names or fewer than 15 columns the preview cell
    raises [IndexError], after it has printed the text of every index that
    has both a name and a column. *)
Theorem preview_short_vocabulary (names : list string) (dtm : ndarray) :
  (Nat.min (length names) (shape1 dtm) < 15)%nat ->
  preview names dtm
  = (Raise IndexError, map show_total (combine names (sum_axis0 dtm))) /\
  length (snd (preview names dtm)) = Nat.min (length names) (shape1 dtm).
Proof.
  intros Hshort. set (m := Nat.min (length names) (shape1 dtm)) in *.
  assert (Hrun : preview names dtm
    = (Raise IndexError, map show_total (combine names (sum_axis0 dtm)))).
  { unfold preview, range.
    replace 15%nat with (m + S (15 - S m))%nat by lia.
    rewrite seq_app, print_each_app.
    rewrite print_each_preview_ok by (unfold m; lia).
    cbn [skipn app]. rewrite firstn_all2
      by (rewrite length_combine, sum_axis0_length; unfold m; lia).
    cbn [seq print_each Nat.add]. unfold preview_line, getitem.
    destruct (nth_error names m) as [k|] eqn:Hk; [|reflexivity].
    destruct (nth_error (sum_axis0 dtm) m) as [v|] eqn:Hv; [|reflexivity].
    assert (nth_error names m <> None) as Hk' by congruence.
    assert (nth_error (sum_axis0 dtm) m <> None) as Hv' by congruence.
    apply nth_error_Some in Hk', Hv'. rewrite sum_axis0_length in Hv'.
    unfold m in *. lia. }
  split; [exact Hrun|]. rewrite Hrun. cbn [snd].
  now rewrite length_map, length_combine, sum_axis0_length.
Qed.

(** The example has three names: three texts, then the exception. *)
Lemma preview_short_vocabulary_witness :
  preview example_names example_dtm
  = (Raise IndexError,
     map show_total (combine example_names (sum_axis0 example_dtm))) /\
  length (snd (preview example_names example_dtm))
  = Nat.min (length example_names) (shape1 example_dtm).
Proof.
  apply (preview_short_vocabulary example_names example_dtm).
  simpl. lia.
Defined.

(** X11.  The two printing loops never raise.  The first prints one text,
    name and count separated by a space, for each of the first 30 entries of
    the sorted list, so [min 30 len] texts; the second prints the entries 200
    to 229 as far as they exist, and nothing for a list of at most 200
    entries. *)
Theorem printing_loops (ranked : list (string * Z)) :
  print_top30 ranked = (Ok tt, map show_entry (firstn 30 ranked)) /\
  length (snd (print_top30 ranked)) = Nat.min 30 (length ranked) /\
  print_lower30 ranked
  = (Ok tt, map show_entry (firstn 30 (skipn 200 ranked))) /\
  length (snd (print_lower30 ranked))
  = Nat.min 30 (length ranked - 200) /\
  ((length ranked <= 200)%nat -> snd (print_lower30 ranked) = []).
Proof.
  unfold print_top30, print_lower30, top30, lower30.
  rewrite top30_firstn, lower30_skipn, !print_each_total. cbn [app snd].
  split; [reflexivity|].
  split; [now rewrite length_map, length_firstn|].
  split; [reflexivity|].
  split; [now rewrite length_map, length_firstn, length_skipn|].
  intros H. rewrite skipn_all2 by lia. now rewrite firstn_nil.
Qed.

(** The example ranking has three entries: three rows, then none. *)
Lemma printing_loops_witness :
  snd (print_lower30
         [("cat"%string, 3); ("sun"%string, 2); ("dog"%string, 1)]) = [].
Proof.
  apply (proj2 (proj2 (proj2 (proj2 (printing_loops
    [("cat"%string, 3); ("sun"%string, 2); ("dog"%string, 1)]))))).
  simpl. lia.
Defined.

(** ** Reading the corpus *)

Lemma read_all_ok {E : Type} (read_text : string -> E + string)
    (base_dir : string) :
  forall (docs texts acc : list string),
    map (fun doc => read_text (base_dir ++ doc)%string) docs
    = map inr texts ->
    read_all read_text base_dir docs acc = (None, acc ++ texts).
Proof.
  induction docs as [|doc docs IH]; intros [|t texts] acc H; simpl in *;
    try discriminate.
  - now rewrite app_nil_r.
  - injection H as Hdoc Hrest. rewrite Hdoc, (IH texts) by exact Hrest.
    now rewrite <- app_assoc.
Qed.

Lemma read_all_app {E : Type} (read_text : string -> E + string)
    (base_dir : string) (pre post : list string) :
  forall acc : list string,
    read_all read_text base_dir (pre ++ post) acc
    = match read_all read_text base_dir pre acc with
      | (None, acc') => read_all read_text base_dir post acc'
      | (Some e, acc') => (Some e, acc')
      end.
Proof.
  induction pre as [|doc pre IH]; intros acc; simpl; [reflexivity|].
  destruct (read_text (base_dir ++ doc)%string) as [e|t];
    [reflexivity | apply IH].
Qed.

(** X12.  When every listed file can be read and the directory is not
    empty, the cell does not raise; [all_docs] has one text per listed name,
    in the order of the listing, each the text of the file of that name; and
    the name and the text that the cell prints belong to the same file. *)
Theorem load_corpus_keeps_texts_with_names {E : Type}
    (read_text : string -> E + string)
    (name : string) (rest texts : list string) :
  map (fun doc => read_text ("./lyrics/" ++ doc)%string) (name :: rest)
  = map inr texts ->
  exists text : string,
    read_text ("./lyrics/" ++ name)%string = inr text /\
    load_corpus read_text (name :: rest)
    = (None, mk_load_state texts [name; nl; text]) /\
    length texts = length (name :: rest) /\
    forall (i : nat) (doc : string),
      nth_error (name :: rest) i = Some doc ->
      exists t : string,
        nth_error texts i = Some t /\
        read_text ("./lyrics/" ++ doc)%string = inr t.
Proof.
  intros Hread.
  assert (Hlen : length texts = length (name :: rest)).
  { apply (f_equal (@length (E + string))) in Hread.
    now rewrite !length_map in Hread. }
  destruct texts as [|text texts]; [discriminate|].
  exists text. split; [now injection Hread|].
  split.
  { unfold load_corpus. now rewrite (read_all_ok _ _ _ _ _ Hread). }
  split; [exact Hlen|].
  intros i doc Hi.
  pose proof (map_nth_error
    (fun doc => read_text ("./lyrics/" ++ doc)%string) i _ Hi) as Hdoc.
  rewrite Hread in Hdoc.
  destruct (nth_error (text :: texts) i) as [t|] eqn:Ht.
  - exists t. split; [reflexivity|].
    rewrite (map_nth_error inr i _ Ht) in Hdoc. now injection Hdoc.
  - apply nth_error_None in Ht.
    assert (nth_error (name :: rest) i <> None) as Hi' by congruence.
    apply nth_error_Some in Hi'. lia.
Qed.

(** A directory of two files. *)
Lemma load_corpus_keeps_texts_with_names_witness :
  exists text : string,
    (fun path => inr (path ++ "!")%string : unit + string)
      ("./lyrics/" ++ "a.txt")%string = inr text /\
    load_corpus (fun path => inr (path ++ "!")%string : unit + string)
      ["a.txt"; "b.txt"]%string
    = (None,
       mk_load_state ["./lyrics/a.txt!"; "./lyrics/b.txt!"]%string
         ["a.txt"%string; nl; text]) /\
    length ["./lyrics/a.txt!"; "./lyrics/b.txt!"]%string
    = length ["a.txt"; "b.txt"]%string /\
    forall (i : nat) (doc : string),
      nth_error ["a.txt"; "b.txt"]%string i = Some doc ->
      exists t : string,
        nth_error ["./lyrics/a.txt!"; "./lyrics/b.txt!"]%string i = Some t /\
        (fun path => inr (path ++ "!")%string : unit + string)
          ("./lyrics/" ++ doc)%string = inr t.
Proof.
  apply (load_corpus_keeps_texts_with_names
           (fun path => inr (path ++ "!")%string : unit + string)
           "a.txt"%string ["b.txt"%string]
           ["./lyrics/a.txt!"; "./lyrics/b.txt!"]%string).
  reflexivity.
Defined.

(** X13.  An empty directory makes the cell raise [IndexError] at
    [docs[0]], with nothing read and nothing printed.  An entry that cannot be
    opened or read, a subdirectory for one, stops the cell with the exception
    of that entry: [all_docs] keeps the texts of the entries listed before
    it, the entries after it are not read, and nothing is printed. *)
Theorem load_corpus_failures {E : Type} (read_text : string -> E + string) :
  load_corpus read_text []
  = (Some (Builtin IndexError), mk_load_state [] []) /\
  forall (pre post texts : list string) (bad : string) (e : E),
    map (fun doc => read_text ("./lyrics/" ++ doc)%string) pre
    = map inr texts ->
    read_text ("./lyrics/" ++ bad)%string = inl e ->
    load_corpus read_text (pre ++ bad :: post)
    = (Some (FromFile e), mk_load_state texts []).
Proof.
  split; [reflexivity|].
  intros pre post texts bad e Hpre Hbad. unfold load_corpus.
  rewrite read_all_app, (read_all_ok _ _ _ _ _ Hpre).
  cbn [read_all app]. now rewrite Hbad.
Qed.

(** A listing whose second entry is a directory. *)
Lemma load_corpus_failures_witness :
  load_corpus
    (fun path => if String.eqb path "./lyrics/old" then inl tt
                 else inr (path ++ "!")%string)
    ["a.txt"; "old"; "b.txt"]%string
  = (Some (FromFile tt), mk_load_state ["./lyrics/a.txt!"%string] []).
Proof.
  apply (proj2 (load_corpus_failures
    (fun path => if String.eqb path "./lyrics/old" then inl tt
                 else inr (path ++ "!")%string))
    ["a.txt"%string] ["b.txt"%string] ["./lyrics/a.txt!"%string]
    "old"%string tt); reflexivity.
Defined.

(** ** Words by part of speech *)

Lemma str_in_spec (s : string) (l : list string) :
  str_in s l = true <-> In s l.
Proof.
  unfold str_in. rewrite existsb_exists. split.
  - intros (x & Hx & Heq). apply String.eqb_eq in Heq. now subst.
  - intros H. exists s. split; [exact H | apply String.eqb_refl].
Qed.

Lemma collect_words_spec (pos : string) (doc : list token) :
  forall words : list string,
    NoDup words ->
    NoDup (collect_words pos doc words) /\
    forall t : string,
      In t (collect_words pos doc words) <->
      In t words \/
      exists item : token, In item doc /\ pos_ item = pos /\ text item = t.
Proof.
  induction doc as [|item doc IH]; intros words Hnd; simpl.
  - split; [exact Hnd|]. intros t. split; [tauto|].
    intros [H|(i & [] & _)]. exact H.
  - destruct (String.eqb_spec (pos_ item) pos) as [Hpos|Hpos]; simpl.
    + destruct (str_in (text item) words) eqn:Hin; simpl.
      * apply str_in_spec in Hin.
        destruct (IH words Hnd) as [Hnd' Hiff]. split; [exact Hnd'|].
        intros t. rewrite Hiff. split.
        -- intros [H|(i & Hi & Hp & Ht)]; [now left|].
           right. exists i. tauto.
        -- intros [H|(i & [<-|Hi] & Hp & Ht)]; [now left | |].
           ++ left. now rewrite <- Ht.
           ++ right. now exists i.
      * assert (Hout : ~ In (text item) words).
        { intros H. apply str_in_spec in H. congruence. }
        destruct (IH (words ++ [text item])) as [Hnd' Hiff].
        { apply NoDup_app; repeat split; try assumption.
          - repeat constructor. intros [].
          - intros x Hx [<-|[]]. contradiction. }
        split; [exact Hnd'|]. intros t. rewrite Hiff, in_app_iff. simpl.
        split.
        -- intros [[H|[<-|[]]]|(i & Hi & Hp & Ht)].
           ++ now left.
           ++ right. exists item. tauto.
           ++ right. exists i. tauto.
        -- intros [H|(i & [<-|Hi] & Hp & Ht)].
           ++ tauto.
           ++ left. right. now left.
           ++ right. now exists i.
    + destruct (IH words Hnd) as [Hnd' Hiff]. split; [exact Hnd'|].
      intros t. rewrite Hiff. split.
      * intros [H|(i & Hi & Hp & Ht)]; [now left|].
        right. exists i. tauto.
      * intros [H|(i & [<-|Hi] & Hp & Ht)]; [now left | contradiction |].
        right. now exists i.
Qed.

Lemma collect_words_app (pos : string) (doc1 doc2 : list token) :
  forall words : list string,
    collect_words pos (doc1 ++ doc2) words
    = collect_words pos doc2 (collect_words pos doc1 words).
Proof.
  induction doc1 as [|item doc1 IH]; intros words; simpl; [reflexivity|].
  destruct (_ && _); apply IH.
Qed.

Lemma collect_words_extends (pos : string) (doc : list token) :
  forall words : list string,
    exists more : list string, collect_words pos doc words = words ++ more.
Proof.
  induction doc as [|item doc IH]; intros words; simpl.
  - exists []. now rewrite app_nil_r.
  - destruct (_ && _); [|apply IH].
    destruct (IH (words ++ [text item])) as [more ->].
    exists (text item :: more). now rewrite <- app_assoc.
Qed.

(** X14.  The list of nouns has no word twice, and a word is in it exactly
    when some token of the document has that text and the part of speech
    NOUN; the same holds for the adjectives with ADJ. *)
Theorem words_by_part_of_speech (doc2 : list token) :
  NoDup (nouns doc2) /\
  (forall t : string,
     In t (nouns doc2) <->
     exists item : token,
       In item doc2 /\ pos_ item = "NOUN"%string /\ text item = t) /\
  NoDup (adjectives doc2) /\
  (forall t : string,
     In t (adjectives doc2) <->
     exists item : token,
       In item doc2 /\ pos_ item = "ADJ"%string /\ text item = t).
Proof.
  unfold nouns, adjectives.
  destruct (collect_words_spec "NOUN" doc2 [] (NoDup_nil _)) as [Hn Hnin].
  destruct (collect_words_spec "ADJ" doc2 [] (NoDup_nil _)) as [Ha Hain].
  split; [exact Hn|]. split.
  - intros t. rewrite Hnin. simpl. tauto.
  - split; [exact Ha|]. intros t. rewrite Hain. simpl. tauto.
Qed.

(** The word "coast" tagged as a noun twice and "west" as an adjective. *)
Lemma words_by_part_of_speech_witness :
  In "coast"%string
    (nouns [mk_token "west" "west " "ADJ" "amod" [];
            mk_token "coast" "coast " "NOUN" "nsubj" [];
            mk_token "coast" "coast" "NOUN" "pobj" []]).
Proof.
  apply (proj1 (proj2 (words_by_part_of_speech
    [mk_token "west" "west " "ADJ" "amod" [];
     mk_token "coast" "coast " "NOUN" "nsubj" [];
     mk_token "coast" "coast" "NOUN" "pobj" []]))).
  exists (mk_token "coast" "coast " "NOUN" "nsubj" []).
  simpl. tauto.
Defined.

(** X15.  The words are collected in the order of their first occurrence:
    the list for a longer document starts with the list for the document
    read so far, so more text never removes or moves a word. *)
Theorem words_keep_first_occurrence_order (doc1 doc2 : list token) :
  (exists more : list string, nouns (doc1 ++ doc2) = nouns doc1 ++ more) /\
  (exists more : list string,
     adjectives (doc1 ++ doc2) = adjectives doc1 ++ more).
Proof.
  unfold nouns, adjectives. rewrite !collect_words_app.
  split; apply collect_words_extends.
Qed.

(** ** Flattened subtrees *)







(** ** Subjects and prepositional phrases *)

Lemma collect_phrases_spec (isspace : Ascii.ascii -> bool)
    (test : token -> bool) (doc : list token) :
  forall phrases : list string,
    collect_phrases isspace test doc phrases
    = phrases
      ++ map (fun word => flatten_subtree isspace (subtree word))
           (filter test doc).
Proof.
  induction doc as [|word doc IH]; intros phrases; simpl.
  - now rewrite app_nil_r.
  - destruct (test word); rewrite IH; [|reflexivity].
    now rewrite <- app_assoc.
Qed.

Lemma subject_is_no_prep (word : token) :
  is_subject word = true -> is_prep word = false.
Proof.
  unfold is_subject, is_prep. intros H. apply orb_true_iff in H.
  destruct H as [H|H]; apply String.eqb_eq in H; now rewrite H.
Qed.

Lemma filter_disjoint_length {A : Type} (p q : A -> bool) (l : list A) :
  (forall x, p x = true -> q x = false) ->
  (length (filter p l) + length (filter q l) <= length l)%nat.
Proof.
  intros Hpq. induction l as [|x l IH]; simpl; [lia|].
  destruct (p x) eqn:Hp.
  - rewrite (Hpq x Hp). simpl. lia.
  - destruct (q x); simpl; lia.
Qed.

(** X17.  The list of subjects holds one flattened subtree for every token
    whose dependency relation is nsubj or nsubjpass, in the order of the
    tokens, and the list of prepositional phrases one for every token whose
    relation is prep; no token gives a phrase to both lists, so together they
    are never longer than the document; and the subjects of two texts read
    one after the other are the subjects of the first followed by those of
    the second. *)
Theorem phrases_follow_tokens (isspace : Ascii.ascii -> bool)
    (doc : list token) :
  subjects isspace doc
  = map (fun word => flatten_subtree isspace (subtree word))
      (filter is_subject doc) /\
  prep_phrases isspace doc
  = map (fun word => flatten_subtree isspace (subtree word))
      (filter is_prep doc) /\
  (length (subjects isspace doc) + length (prep_phrases isspace doc)
   <= length doc)%nat /\
  forall doc' : list token,
    subjects isspace (doc ++ doc')
    = subjects isspace doc ++ subjects isspace doc' /\
    prep_phrases isspace (doc ++ doc')
    = prep_phrases isspace doc ++ prep_phrases isspace doc'.
Proof.
  unfold subjects, prep_phrases. rewrite !collect_phrases_spec. cbn [app].
  split; [reflexivity|]. split; [reflexivity|]. split.
  - rewrite !length_map.
    apply filter_disjoint_length, subject_is_no_prep.
  - intros doc'. rewrite !collect_phrases_spec. cbn [app].
    now rewrite !filter_app, !map_app.
Qed.

(** ** The most frequent word *)

Lemma filter_head_split {A : Type} (p : A -> bool) (l : list A) :
  forall (x : A) (r : list A),
    filter p l = x :: r ->
    exists pre post : list A,
      l = pre ++ x :: post /\ Forall (fun y => p y = false) pre.
Proof.
  induction l as [|a l IH]; intros x r H; simpl in H; [discriminate|].
  destruct (p a) eqn:Hp.
  - injection H as -> _. exists [], l. split; [reflexivity | constructor].
  - destruct (IH x r H) as (pre & post & -> & Hpre).
    exists (a :: pre), post. split; [reflexivity | now constructor].
Qed.

(** X18.  The first entry of the sorted list, the first row that is printed,
    has the largest count of the table, and among the entries with that
    count it is the one that comes first in the table: every entry in front
    of it in the table has a strictly smaller count. *)
Theorem most_frequent_word_comes_first
    (d : dict) (top : string * Z) (rest : list (string * Z)) :
  sortVocab d = top :: rest ->
  (forall e : string * Z, In e (items d) -> snd e <= snd top) /\
  exists pre post : list (string * Z),
    items d = pre ++ top :: post /\
    Forall (fun e => snd e < snd top) pre.
Proof.
  intros Hsort.
  assert (Hmax : forall e : string * Z, In e (items d) -> snd e <= snd top).
  { intros e He.
    apply (Permutation_in _ (Permutation_sym (sortVocab_perm d))) in He.
    rewrite Hsort in He. destruct He as [<-|He]; [lia|].
    pose proof (sortVocab_desc d) as Hs. rewrite Hsort in Hs.
    inversion Hs as [|? ? _ Hall]; subst.
    rewrite Forall_forall in Hall. apply (Hall e He). }
  split; [exact Hmax|].
  pose proof (sortVocab_stable (snd top) d) as Hst.
  rewrite Hsort in Hst. unfold with_count in Hst. cbn [filter] in Hst.
  rewrite Z.eqb_refl in Hst. symmetry in Hst.
  destruct (filter_head_split _ _ _ _ Hst) as (pre & post & Hd & Hpre).
  exists pre, post. split; [exact Hd|].
  rewrite Forall_forall in *. intros e He.
  specialize (Hpre e He). apply Z.eqb_neq in Hpre.
  assert (snd e <= snd top); [|lia].
  apply Hmax. rewrite Hd. apply in_or_app. now left.
Qed.

(** Cat and sun tie at the count 3, and cat stands first in the table. *)
Lemma most_frequent_word_comes_first_witness :
  snd ("sun"%string, 3) <= snd ("cat"%string, 3) /\
  exists pre post : list (string * Z),
    items [("dog"%string, 1); ("cat"%string, 3); ("sun"%string, 3)]
    = pre ++ ("cat"%string, 3) :: post /\
    Forall (fun e => snd e < snd ("cat"%string, 3)) pre.
Proof.
  destruct (most_frequent_word_comes_first
    [("dog"%string, 1); ("cat"%string, 3); ("sun"%string, 3)]
    ("cat"%string, 3) [("sun"%string, 3); ("dog"%string, 1)] eq_refl)
    as [Hmax Hfirst].
  split; [|exact Hfirst].
  apply Hmax. simpl. tauto.
Defined.

(** ** Counts are frequencies *)

Lemma sum_ge_member (l : list Z) (x : Z) :
  Forall (fun c => 0 <= c) l -> In x l -> x <= fold_right Z.add 0 l.
Proof.
  induction 1 as [|c l Hc Hl IH]; intros Hin; [destruct Hin|].
  assert (0 <= fold_right Z.add 0 l).
  { clear IH Hin. induction Hl; simpl; lia. }
  simpl. destruct Hin as [->|Hin]; [lia | specialize (IH Hin); lia].
Qed.

Lemma column_nonneg (dtm : ndarray) (j : nat) :
  Forall (Forall (fun c => 0 <= c <= int64_max)) (cells dtm) ->
  Forall (fun c => 0 <= c) (column dtm j).
Proof.
  unfold column. induction 1 as [|row rows Hrow _ IH]; simpl; constructor.
  - destruct (nth_in_or_default j row 0) as [Hin | ->]; [|lia].
    rewrite Forall_forall in Hrow. now apply Hrow in Hin.
  - exact IH.
Qed.

(** X19.  On a document-term matrix with one distinct name per column every
    count of the table lies between 0 and the largest [int64], and the count
    of a name is at least the cell of its column in any single document. *)
Theorem counts_are_frequencies
    (names : list string) (dtm : ndarray) (j : nat) (term : string) :
  is_dtm dtm -> NoDup names -> length names = shape1 dtm ->
  nth_error names j = Some term ->
  exists (d : dict) (v : Z),
    dictVocab names dtm = Ok d /\
    get d term = Some v /\
    0 <= v <= int64_max /\
    forall row : list Z, In row (cells dtm) -> nth j row 0 <= v.
Proof.
  intros Hdtm Hnd Hlen Hj.
  assert (Hjc : (j < shape1 dtm)%nat).
  { rewrite <- Hlen. apply nth_error_Some. congruence. }
  exists (combine names (sum_axis0 dtm)), (column_total dtm j).
  split; [now apply dictVocab_unique_names|]. split.
  - apply (get_combine names _ j); [exact Hnd | exact Hj|].
    rewrite sum_axis0_exact by exact Hdtm.
    now apply map_nth_error, nth_error_seq_0.
  - pose proof (dtm_counts _ Hdtm) as Hc.
    pose proof (dtm_totals _ Hdtm) as Ht.
    rewrite Forall_forall in Ht. split.
    + split; [now apply column_total_nonneg|].
      apply Ht, in_seq. lia.
    + intros row Hrow. unfold column_total.
      apply sum_ge_member; [now apply column_nonneg|].
      unfold column. now apply (in_map (fun row => nth j row 0)).
Qed.

(** The count of sun in the example. *)
Lemma counts_are_frequencies_witness :
  exists (d : dict) (v : Z),
    dictVocab example_names example_dtm = Ok d /\
    get d "sun"%string = Some v /\
    0 <= v <= int64_max /\
    forall row : list Z, In row (cells example_dtm) -> nth 2 row 0 <= v.
Proof.
  apply (counts_are_frequencies example_names example_dtm 2 "sun"%string).
  - exact example_is_dtm.
  - exact example_names_distinct.
  - reflexivity.
  - reflexivity.
Defined.
